(** * nestgram: the Api class and its media file-identifier cache

    A shallow embedding of [Api] (the Telegram client of nestgram) and of the
    protocol it follows with [mediaCache]: how multipart forms are built for
    single media and for media groups, and how file identifiers returned by
    the remote side are written back into the cache.

    JavaScript values are modelled by a small value tree, objects by
    association lists in key order (the order [Object.keys] enumerates),
    the process-wide cache by a finite map, and the effects of a call
    (cache updates, requests posted, exceptions) by a state-and-exception
    monad over an explicit [World]. *)

From Stdlib Require Import Ascii String.
From stdpp Require Import gmap strings list pretty.

Set Warnings "-register-all".

(** ** JavaScript values *)

(** Modelled from the spec: the declaration of [MediaFileTypes] is not part
    of the sources. Its members are the literals the Api passes as media
    keys. *)
Inductive MediaFileTypes :=
| photo | video | video_note | audio | voice | document | animation.

Definition MediaFileTypes_name (t : MediaFileTypes) : string :=
  match t with
  | photo => "photo"
  | video => "video"
  | video_note => "video_note"
  | audio => "audio"
  | voice => "voice"
  | document => "document"
  | animation => "animation"
  end.

#[global] Instance MediaFileTypes_eq_dec : EqDecision MediaFileTypes.
Proof. solve_decision. Defined.

(** Modelled from the spec: the class [Media] is not part of the sources. A
    media reference carries the three properties the Api reads: its kind,
    how it is passed (["path"] for a local file, read as a stream; anything
    else is appended as it is, an in-memory buffer), and the local reference
    that is also its cache key. *)
Record Media := {
  type : MediaFileTypes;
  passType : string;
  media : string;
}.

(** Numbers are the integers (chat ids, sizes, durations); [JMedia] is an
    instance of a [Media] class held in an object property. *)
Inductive JsValue :=
| JUndefined
| JNull
| JBool (b : bool)
| JNum (n : Z)
| JStr (s : string)
| JArr (items : list JsValue)
| JObj (props : list (string * JsValue))
| JMedia (m : Media).

Abbreviation JsObject := (list (string * JsValue)).

(** [!data] is false exactly on truthy values. *)
Definition truthy (v : JsValue) : bool :=
  match v with
  | JUndefined | JNull => false
  | JBool b => b
  | JNum n => negb (n =? 0)%Z
  | JStr s => negb (String.eqb s "")
  | JArr _ | JObj _ | JMedia _ => true
  end.

(** [typeof data === 'object'] *)
Definition typeof_object (v : JsValue) : bool :=
  match v with
  | JNull | JArr _ | JObj _ | JMedia _ => true
  | _ => false
  end.

(** Truthiness of a [string | undefined], as tested on cache lookups. *)
Definition truthy_str (o : option string) : bool :=
  match o with
  | Some s => negb (String.eqb s "")
  | None => false
  end.

(** ** Objects: property access, assignment and spread *)

Fixpoint js_get (o : JsObject) (k : string) : JsValue :=
  match o with
  | [] => JUndefined
  | (k', v) :: o' => if String.eqb k' k then v else js_get o' k
  end.

(** [o[k] = v]: an existing key keeps its place, a new one goes last. *)
Fixpoint js_set (o : JsObject) (k : string) (v : JsValue) : JsObject :=
  match o with
  | [] => [(k, v)]
  | (k', v') :: o' =>
      if String.eqb k' k then (k', v) :: o' else (k', v') :: js_set o' k v
  end.

(** [{ ...o, ...src }] *)
Definition js_spread (o src : JsObject) : JsObject :=
  fold_left (fun acc kv => js_set acc kv.1 kv.2) src o.

(** [Object.keys(o)]: the keys in insertion order (the configurations have
    no array-index keys, which JavaScript would enumerate first). *)
Definition js_keys (o : JsObject) : list string := o.*1.

(** ** JSON.stringify *)

Definition hex_digit (n : N) : ascii :=
  match n with
  | 0 => "0" | 1 => "1" | 2 => "2" | 3 => "3" | 4 => "4" | 5 => "5"
  | 6 => "6" | 7 => "7" | 8 => "8" | 9 => "9" | 10 => "a" | 11 => "b"
  | 12 => "c" | 13 => "d" | 14 => "e" | _ => "f"
  end%N%char.

Definition backslash : ascii := "092"%char.

Definition escaped (c : ascii) : string := String backslash (String c "").

Definition json_escape_char (c : ascii) : string :=
  let n := N_of_ascii c in
  if (n =? 34)%N then escaped c
  else if (n =? 92)%N then escaped c
  else if (n =? 8)%N then escaped "b"
  else if (n =? 9)%N then escaped "t"
  else if (n =? 10)%N then escaped "n"
  else if (n =? 12)%N then escaped "f"
  else if (n =? 13)%N then escaped "r"
  else if (n <? 32)%N then
    escaped "u" +:+ "00" +:+
    String (hex_digit (n / 16)) (String (hex_digit (n mod 16)) "")
  else String c "".

Fixpoint json_escape (s : string) : string :=
  match s with
  | EmptyString => ""
  | String c s' => json_escape_char c +:+ json_escape s'
  end.

Definition json_quote (s : string) : string :=
  String "034" (json_escape s +:+ String "034" "").

Fixpoint json_join (parts : list string) : string :=
  match parts with
  | [] => ""
  | [p] => p
  | p :: rest => p +:+ "," +:+ json_join rest
  end.

Definition json_media_props (m : Media) : list (string * string) :=
  [("type", MediaFileTypes_name (type m));
   ("passType", passType m);
   ("media", media m)].

Definition json_member (kv : string * string) : string :=
  json_quote kv.1 +:+ ":" +:+ kv.2.

(** The JSON text of a value. An [undefined] array element prints as [null];
    an [undefined] property is left out of its object. *)
Fixpoint JSON_stringify (v : JsValue) : string :=
  match v with
  | JUndefined | JNull => "null"
  | JBool true => "true"
  | JBool false => "false"
  | JNum n => pretty n
  | JStr s => json_quote s
  | JArr items => "[" +:+ json_join (map JSON_stringify items) +:+ "]"
  | JObj props =>
      "{" +:+
      json_join
        ((fix members (ps : list (string * JsValue)) : list string :=
            match ps with
            | [] => []
            | (_, JUndefined) :: ps' => members ps'
            | (k, x) :: ps' => json_member (k, JSON_stringify x) :: members ps'
            end) props)
      +:+ "}"
  | JMedia m =>
      "{" +:+
      json_join (map (fun kv => json_member (kv.1, json_quote kv.2))
                     (json_media_props m))
      +:+ "}"
  end.

(** ** Multipart forms *)

(** What [formData.append] was given: a plain value, a read stream opened on
    a path, or an in-memory payload. *)
Inductive FormValue :=
| FString (s : string)
| FNumber (n : Z)
| FBool (b : bool)
| FStream (path : string)
| FBuffer (payload : string).

Abbreviation FormData := (list (string * FormValue)).

Definition form_append (fd : FormData) (key : string) (v : FormValue) : FormData :=
  fd ++ [(key, v)].

Definition is_binary (v : FormValue) : bool :=
  match v with
  | FStream _ | FBuffer _ => true
  | _ => false
  end.

Definition form_names (fd : FormData) : list string := fd.*1.

(** [typeof data === 'object' ? JSON.stringify(data) : data], for a value
    that passed the [!data] test. *)
Definition form_field_value (data : JsValue) : FormValue :=
  if typeof_object data then FString (JSON_stringify data)
  else match data with
       | JBool b => FBool b
       | JNum n => FNumber n
       | JStr s => FString s
       | _ => FString (JSON_stringify data)
       end.

(** ** The media cache *)

(** The module [./Media/MediaCache] is not part of the sources; its three
    operations follow the specification of the cache and keep the names
    under which the Api calls them. *)
Module MediaCache.

(** Modelled from the spec: [getMediaFileId] of the missing [MediaCache]
    ("lookup(key) -> identifier | absent: pure read, no side effect"). *)
Definition getMediaFileId (c : gmap string string) (path : string)
  : option string :=
  c !! path.

(** Modelled from the spec: the existence check of the missing [MediaCache]
    ("equivalent to lookup(key) being present"). *)
Definition has (c : gmap string string) (path : string) : bool :=
  bool_decide (is_Some (c !! path)).

(** Modelled from the spec: [saveMediaFileId] of the missing [MediaCache]
    ("inserts if key is absent; no-op (not an overwrite, not an error) if
    key is already present"). *)
Definition saveMediaFileId (c : gmap string string) (path fileId : string)
  : gmap string string :=
  match c !! path with
  | Some _ => c
  | None => <[path := fileId]> c
  end.

End MediaCache.

(** ** Messages returned by the remote side *)

(** Modelled from the spec: the declarations of the response types are not
    part of the sources. A media object of a response carries a string
    identifier. *)
Record IFileInfo := { file_id : string }.

(** Modelled from the spec: the declaration of [IMessage] is not part of the
    sources. A message has a field named after each media kind, holding a
    single media object, or for [photo] the list of sizes by ascending
    resolution. [oid] is the identity of the object: two messages are the
    same object exactly when they have the same [oid]. *)
Record IMessage := {
  oid : nat;
  m_photo : option (list IFileInfo);
  m_video : option IFileInfo;
  m_video_note : option IFileInfo;
  m_audio : option IFileInfo;
  m_voice : option IFileInfo;
  m_document : option IFileInfo;
  m_animation : option IFileInfo;
}.

(** [data.result]: one message, a list of messages, or a payload of another
    shape: any other value, none of whose parts is a message with media. *)
Inductive ApiResult :=
| RMessage (m : IMessage)
| RMessages (ms : list IMessage)
| ROther (v : JsValue).

(** ** Requests, the world and the monad of effects *)

Inductive Payload :=
| PJson (v : JsValue)
| PForm (fd : FormData).

Record Request := {
  url : string;
  body : Payload;
  headers : option JsObject;
}.

(** How [axios.post] settles: with the parsed response, or rejected with the
    description found in the error payload (when there is one) and the error
    itself. *)
Inductive AxiosOutcome :=
| Resolved (result : ApiResult)
| Rejected (description : option string) (e : string).

Inductive Exception :=
| NestgramError (msg : string)
| TypeError.

(** [error] of the logger builds the value that is thrown. *)
Definition error (msg : string) : Exception := NestgramError msg.

Record World := {
  cache : gmap string string;
  posted : list Request;
}.

Inductive Completion (A : Type) :=
| Return (a : A)
| Throw (e : Exception).
Arguments Return {A} a.
Arguments Throw {A} e.

Definition Js (A : Type) : Type := World -> Completion A * World.

Definition ret {A} (a : A) : Js A := fun w => (Return a, w).

Definition throw {A} (e : Exception) : Js A := fun w => (Throw e, w).

Definition bind {A B} (m : Js A) (k : A -> Js B) : Js B :=
  fun w =>
    match m w with
    | (Return a, w') => k a w'
    | (Throw e, w') => (Throw e, w')
    end.

Notation "'let*' x ':=' m 'in' k" := (bind m (fun x => k))
  (at level 10, x name, m at level 100, k at level 200).

Definition getCache : Js (gmap string string) := fun w => (Return (cache w), w).

Definition setCache (c : gmap string string) : Js unit :=
  fun w => (Return tt, {| cache := c; posted := posted w |}).

Definition post (rq : Request) : Js unit :=
  fun w => (Return tt, {| cache := cache w; posted := posted w ++ [rq] |}).

(** [xs.forEach(...)] and [for (const x of xs)] over a body with effects. *)
Fixpoint forEach {A} (body : A -> Js unit) (xs : list A) : Js unit :=
  match xs with
  | [] => ret tt
  | x :: xs' => let* _ := body x in forEach body xs'
  end.

Definition result_of {A} (r : Completion A * World) : Completion A := r.1.
Definition world_of {A} (r : Completion A * World) : World := r.2.

(** ** Media passed to the Api *)

(** Modelled from the spec: the classes [Photo], [Video], [Audio], ... are
    not part of the sources. An item is a media reference together with the
    optional parts the Api reads from it: a thumbnail, a resolution (on
    videos), per-item options, and whether it is an instance of [Video]. *)
Record InputSupportedMedia := {
  base : Media;
  thumb : option Media;
  isVideo : bool;
  resolution : JsObject;
  options : JsObject;
}.

(** Modelled from the spec: the class [Keyboard] is not part of the sources;
    of a keyboard the Api only uses the markup it builds. *)
Record Keyboard := { buildMarkup : JsValue }.

Definition thumb_value (t : option Media) : JsValue :=
  match t with
  | Some m => JMedia m
  | None => JUndefined
  end.

(** [if (keyboard) moreOptions.reply_markup = keyboard.buildMarkup()] *)
Definition with_keyboard (keyboard : option Keyboard) (moreOptions : JsObject)
  : JsObject :=
  match keyboard with
  | Some kb => js_set moreOptions "reply_markup" (buildMarkup kb)
  | None => moreOptions
  end.

(** ** The Api class *)

Record Api := { token : option string }.

Section ApiClass.

(** The HTTP transport: what posting a request settles with. *)
Variable axios_post : Request -> AxiosOutcome.

Definition call (token method : string) (config : Payload)
    (headers : option JsObject) : Js ApiResult :=
  let rq := {| url := "https://api.telegram.org/bot" +:+ token +:+ "/" +:+ method;
               body := config;
               headers := headers |} in
  let* _ := post rq in
  match axios_post rq with
  | Resolved result => ret result
  | Rejected description e =>
      throw (error (".callApi error: " +:+
                    (if truthy_str description then default e description else e)))
  end.

Definition callApi (api : Api) (method : string) (config : Payload)
  : Js ApiResult :=
  if negb (truthy_str (token api))
  then throw (error ("You can't call ." +:+ method +:+ " without token"))
  else call (default "" (token api)) method config None.

(** [mediaCache.getMediaFileId(m.media) || m] *)
Definition cached_or (c : gmap string string) (m : Media) : string + Media :=
  let fileId := MediaCache.getMediaFileId c (media m) in
  if truthy_str fileId then inl (default "" fileId) else inr m.

Definition appendMediaToFormData (formData : FormData) (key : string)
    (m : string + Media) : FormData :=
  match m with
  | inl s => form_append formData key (FString s)
  | inr md =>
      if String.eqb (passType md) "path"
      then form_append formData key (FStream (media md))
      else form_append formData key (FBuffer (media md))
  end.

(** [Object.keys(config).forEach(...)] of both form builders. *)
Definition appendConfig (formData : FormData) (config : JsObject) : FormData :=
  fold_left
    (fun fd key =>
       let data := js_get config key in
       if negb (truthy data) then fd
       else form_append fd key (form_field_value data))
    (js_keys config) formData.

(** [config.thumb] is a thumbnail reference or absent, by its type. *)
Definition buildFormData (c : gmap string string) (fromMediaKey : string)
    (m : Media) (config : JsObject) : FormData :=
  let formData : FormData := [] in
  let formData := appendMediaToFormData formData fromMediaKey (cached_or c m) in
  let formData :=
    match js_get config "thumb" with
    | JMedia t => appendMediaToFormData formData "thumb" (cached_or c t)
    | _ => formData
    end in
  appendConfig formData config.

Definition buildAttachFormData (config : JsObject) : FormData :=
  appendConfig [] config.

(** [message[mediaKey]], and the last photo size when the key is [photo];
    [None] is [undefined]. *)
Definition message_field (m : IMessage) (mediaKey : MediaFileTypes)
  : option IFileInfo :=
  match mediaKey with
  | photo =>
      match m_photo m with
      | Some sizes => sizes !! (length sizes - 1)
      | None => None
      end
  | video => m_video m
  | video_note => m_video_note m
  | audio => m_audio m
  | voice => m_voice m
  | document => m_document m
  | animation => m_animation m
  end.

Definition mediaFileInfo_of (message : ApiResult) (mediaKey : MediaFileTypes)
  : option IFileInfo :=
  match message with
  | RMessage m => message_field m mediaKey
  | _ => None
  end.

(** Reading [.file_id] of [undefined] (a missing media field, or an empty
    list of photo sizes) raises a [TypeError]. *)
Definition saveMediaFileId (path : string) (mediaKey : MediaFileTypes)
    (message : ApiResult) : Js ApiResult :=
  let* c := getCache in
  if negb (truthy_str (MediaCache.getMediaFileId c path)) then
    match mediaFileInfo_of message mediaKey with
    | Some mediaFileInfo =>
        let* _ := setCache (MediaCache.saveMediaFileId c path (file_id mediaFileInfo)) in
        ret message
    | None => throw TypeError
    end
  else ret message.

(** *** Sending one media *)

Definition sendPhoto (api : Api) (chatId : JsValue) (ph : InputSupportedMedia)
    (keyboard : option Keyboard) (moreOptions : JsObject) : Js ApiResult :=
  let moreOptions := with_keyboard keyboard moreOptions in
  let* c := getCache in
  let* message :=
    callApi api "sendPhoto"
      (PForm (buildFormData c "photo" (base ph)
                (js_spread [("chat_id", chatId); ("parse_mode", JStr "HTML")]
                           moreOptions))) in
  saveMediaFileId (media (base ph)) photo message.

Definition sendVideo (api : Api) (chatId : JsValue) (v : InputSupportedMedia)
    (keyboard : option Keyboard) (moreOptions : JsObject) : Js ApiResult :=
  let moreOptions := with_keyboard keyboard moreOptions in
  let* c := getCache in
  let* message :=
    callApi api "sendVideo"
      (PForm (buildFormData c "video" (base v)
                (js_spread
                   (js_spread [("chat_id", chatId); ("parse_mode", JStr "HTML");
                               ("thumb", thumb_value (thumb v))]
                              (resolution v))
                   moreOptions))) in
  saveMediaFileId (media (base v)) video message.

Definition sendVideoNote (api : Api) (chatId : JsValue)
    (videoNote : InputSupportedMedia)
    (keyboard : option Keyboard) (moreOptions : JsObject) : Js ApiResult :=
  let moreOptions := with_keyboard keyboard moreOptions in
  let* c := getCache in
  let* message :=
    callApi api "sendVideoNote"
      (PForm (buildFormData c "video_note" (base videoNote)
                (js_spread [("chat_id", chatId); ("parse_mode", JStr "HTML");
                            ("thumb", thumb_value (thumb videoNote))]
                           moreOptions))) in
  saveMediaFileId (media (base videoNote)) video_note message.

Definition sendAudio (api : Api) (chatId : JsValue) (a : InputSupportedMedia)
    (keyboard : option Keyboard) (moreOptions : JsObject) : Js ApiResult :=
  let moreOptions := with_keyboard keyboard moreOptions in
  let* c := getCache in
  let* message :=
    callApi api "sendAudio"
      (PForm (buildFormData c "audio" (base a)
                (js_spread [("chat_id", chatId); ("parse_mode", JStr "HTML");
                            ("thumb", thumb_value (thumb a))]
                           moreOptions))) in
  saveMediaFileId (media (base a)) audio message.

Definition sendVoice (api : Api) (chatId : JsValue) (vo : InputSupportedMedia)
    (keyboard : option Keyboard) (moreOptions : JsObject) : Js ApiResult :=
  let moreOptions := with_keyboard keyboard moreOptions in
  let* c := getCache in
  let* message :=
    callApi api "sendVoice"
      (PForm (buildFormData c "voice" (base vo)
                (js_spread [("chat_id", chatId); ("parse_mode", JStr "HTML")]
                           moreOptions))) in
  saveMediaFileId (media (base vo)) voice message.

Definition sendDocument (api : Api) (chatId : JsValue) (d : InputSupportedMedia)
    (keyboard : option Keyboard) (moreOptions : JsObject) : Js ApiResult :=
  let moreOptions := with_keyboard keyboard moreOptions in
  let* c := getCache in
  let* message :=
    callApi api "sendDocument"
      (PForm (buildFormData c "document" (base d)
                (js_spread [("chat_id", chatId); ("parse_mode", JStr "HTML");
                            ("thumb", thumb_value (thumb d))]
                           moreOptions))) in
  saveMediaFileId (media (base d)) document message.

Definition sendAnimation (api : Api) (chatId : JsValue) (an : InputSupportedMedia)
    (keyboard : option Keyboard) (moreOptions : JsObject) : Js ApiResult :=
  let moreOptions := with_keyboard keyboard moreOptions in
  let* c := getCache in
  let* message :=
    callApi api "sendAnimation"
      (PForm (buildFormData c "animation" (base an)
                (js_spread
                   (js_spread [("chat_id", chatId); ("parse_mode", JStr "HTML");
                               ("thumb", thumb_value (thumb an))]
                              (resolution an))
                   moreOptions))) in
  saveMediaFileId (media (base an)) animation message.

(** *** Sending a media group *)

(** [mediaCache.getMediaFileId(path) || placeholder] *)
Definition cached_or_attach (c : gmap string string) (path placeholder : string)
  : string :=
  let fileId := MediaCache.getMediaFileId c path in
  if truthy_str fileId then default "" fileId else placeholder.

(** The descriptor that [mediaGroup.map] builds for the item at [index]. *)
Definition inputMedia (c : gmap string string) (index : nat)
    (m : InputSupportedMedia) : JsValue :=
  JObj
    (js_spread
       (js_spread
          (js_spread
             [("type", JStr (MediaFileTypes_name (type (base m))));
              ("media",
               JStr (cached_or_attach c (media (base m))
                       ("attach://" +:+ pretty index)))]
             (match thumb m with
              | Some t =>
                  [("thumb",
                    JStr (cached_or_attach c (media t)
                            ("attach://" +:+ pretty index +:+ "_thumb")))]
              | None => []
              end))
          (if isVideo m then resolution m else []))
       (options m)).

(** The body of [mediaGroup.forEach]: the parts appended for one item. *)
Definition attachMedia (c : gmap string string) (formData : FormData)
    (index : nat) (m : InputSupportedMedia) : FormData :=
  let formData :=
    if negb (truthy_str (MediaCache.getMediaFileId c (media (base m))))
    then appendMediaToFormData formData (pretty index) (inr (base m))
    else formData in
  match thumb m with
  | Some t =>
      if negb (truthy_str (MediaCache.getMediaFileId c (media t)))
      then appendMediaToFormData formData (pretty index +:+ "_thumb") (inr t)
      else formData
  | None => formData
  end.

Definition mediaGroupFormData (c : gmap string string) (chatId : JsValue)
    (mediaGroup : list InputSupportedMedia) (moreOptions : JsObject)
  : FormData :=
  let formData :=
    buildAttachFormData
      (js_spread [("chat_id", chatId);
                  ("media", JArr (imap (inputMedia c) mediaGroup))]
                 moreOptions) in
  fold_left (fun fd im => attachMedia c fd im.1 im.2)
            (imap pair mediaGroup) formData.

(** [sentMessages.indexOf(sentMessage)] compares objects by identity;
    [None] is the index -1. *)
Fixpoint indexOf (sentMessages : list IMessage) (sentMessage : IMessage)
  : option nat :=
  match sentMessages with
  | [] => None
  | m :: rest =>
      if (oid m =? oid sentMessage)%nat then Some 0%nat
      else S <$> indexOf rest sentMessage
  end.

(** The body of the write-back loop; [mediaGroup[i]] is [undefined] out of
    range, and reading [.media] of it raises a [TypeError]. *)
Definition writeBack (mediaGroup : list InputSupportedMedia)
    (sentMessages : list IMessage) (sentMessage : IMessage) : Js unit :=
  match indexOf sentMessages sentMessage ≫= (mediaGroup !!.) with
  | Some m =>
      let* _ := saveMediaFileId (media (base m)) (type (base m))
                                (RMessage sentMessage) in
      ret tt
  | None => throw TypeError
  end.

(** [a === b] where one side is not an object: equal values of the same
    type. Objects are compared by identity, see [js_indexOf]. *)
Definition js_strict_equal_primitive (a b : JsValue) : bool :=
  match a, b with
  | JUndefined, JUndefined | JNull, JNull => true
  | JBool x, JBool y => eqb x y
  | JNum x, JNum y => (x =? y)%Z
  | JStr x, JStr y => String.eqb x y
  | _, _ => false
  end.

Definition js_primitive (v : JsValue) : bool :=
  match v with
  | JArr _ | JObj _ | JMedia _ => false
  | _ => true
  end.

Fixpoint js_first_index (xs : list JsValue) (x : JsValue) : option nat :=
  match xs with
  | [] => None
  | y :: rest =>
      if js_strict_equal_primitive y x then Some 0%nat
      else S <$> js_first_index rest x
  end.

(** [xs.indexOf(x)] for the value [x] met at [position] of [xs]: a primitive
    value is found at its first occurrence, an object (of a parsed response,
    hence a distinct one) at its own position. *)
Definition js_indexOf (xs : list JsValue) (position : nat) (x : JsValue)
  : option nat :=
  if js_primitive x then js_first_index xs x else Some position.

(** What [for (const x of v)] goes through: the characters of a string, the
    elements of an array; [None] for a value that is not iterable. *)
Definition js_iterate (v : JsValue) : option (list JsValue) :=
  match v with
  | JStr s => Some ((fun c => JStr (String c "")) <$> list_ascii_of_string s)
  | JArr items => Some items
  | _ => None
  end.

(** The body of the write-back loop over values that are not messages. *)
Definition writeBackValue (mediaGroup : list InputSupportedMedia)
    (sentMessages : list JsValue) (px : nat * JsValue) : Js unit :=
  match js_indexOf sentMessages px.1 px.2 ≫= (mediaGroup !!.) with
  | Some m =>
      let* _ := saveMediaFileId (media (base m)) (type (base m))
                                (ROther px.2) in
      ret tt
  | None => throw TypeError
  end.

(** A single message, like any other object, is not iterable. *)
Definition sendMediaGroup (api : Api) (chatId : JsValue)
    (mediaGroup : list InputSupportedMedia) (moreOptions : JsObject)
  : Js ApiResult :=
  let* c := getCache in
  let formData := mediaGroupFormData c chatId mediaGroup moreOptions in
  let* sentMessages := callApi api "sendMediaGroup" (PForm formData) in
  match sentMessages with
  | RMessages ms =>
      let* _ := forEach (writeBack mediaGroup ms) ms in
      ret sentMessages
  | ROther v =>
      match js_iterate v with
      | Some xs =>
          let* _ := forEach (writeBackValue mediaGroup xs) (imap pair xs) in
          ret sentMessages
      | None => throw TypeError
      end
  | RMessage _ => throw TypeError
  end.

End ApiClass.


(** ** The other methods of the Api class *)

(** Modelled from the spec: the content classes are not part of the sources.
    A media content is tagged by its class, as the chain of [instanceof]
    tests of [send] tells the classes apart; [PlainMedia] is an instance of
    [Media] itself, of none of its subclasses. *)
Inductive MediaContent :=
| Photo (m : InputSupportedMedia)
| Animation (m : InputSupportedMedia)
| Video (m : InputSupportedMedia)
| VideoNote (m : InputSupportedMedia)
| Audio (m : InputSupportedMedia)
| Document (m : InputSupportedMedia)
| Voice (m : InputSupportedMedia)
| MediaGroup (mediaGroup : list InputSupportedMedia)
| PlainMedia (m : Media).

(** [ContentTypes = Media | string | undefined | null] *)
Inductive ContentTypes :=
| ContentMedia (m : MediaContent)
| ContentString (s : string)
| ContentUndefined
| ContentNull.

(** Modelled from the spec: the message creators are not part of the
    sources. Each carries its [options]; [OtherCreator] is a creator of none
    of the classes that [send] tests for. *)
Inductive MessageCreator :=
| MessageSend (content : ContentTypes) (creatorOptions : JsObject)
| Alert (text : string) (creatorOptions : JsObject)
| Toast (text : string) (creatorOptions : JsObject)
| Location (latitude longitude : JsValue) (creatorOptions : JsObject)
| OtherCreator (creatorOptions : JsObject).

Definition creator_options (content : MessageCreator) : JsObject :=
  match content with
  | MessageSend _ o | Alert _ o | Toast _ o | Location _ _ o | OtherCreator o => o
  end.

Section ApiMethods.

Variable axios_post : Request -> AxiosOutcome.

Definition getMe (api : Api) : Js ApiResult :=
  callApi axios_post api "getMe" (PJson JUndefined).

Definition setWebhook (api : Api) (config : JsObject) : Js ApiResult :=
  callApi axios_post api "setWebhook" (PJson (JObj config)).

Definition deleteWebhook (api : Api) (config : option JsObject) : Js ApiResult :=
  callApi axios_post api "deleteWebhook"
    (PJson (match config with Some c => JObj c | None => JUndefined end)).

Definition sendLocation (api : Api) (chatId latitude longitude : JsValue)
    (moreOptions : JsObject) : Js ApiResult :=
  callApi axios_post api "sendLocation"
    (PJson (JObj (js_spread [("chat_id", chatId); ("latitude", latitude);
                             ("longitude", longitude)]
                            moreOptions))).

Definition answerCallbackQuery (api : Api) (callback_query_id : string)
    (moreOptions : JsObject) : Js ApiResult :=
  callApi axios_post api "answerCallbackQuery"
    (PJson (JObj (js_spread [("callback_query_id", JStr callback_query_id)]
                            moreOptions))).

Definition alert (api : Api) (callback_query_id text : string)
    (moreOptions : JsObject) : Js ApiResult :=
  answerCallbackQuery api callback_query_id
    [("text", JStr text); ("show_alert", JBool true)].

Definition toast (api : Api) (callback_query_id text : string)
    (moreOptions : JsObject) : Js ApiResult :=
  answerCallbackQuery api callback_query_id
    [("text", JStr text); ("show_alert", JBool false)].

Definition getFile (api : Api) (fileId : string) : Js ApiResult :=
  callApi axios_post api "getFile" (PJson (JObj [("file_id", JStr fileId)])).

Definition forward (api : Api) (msgId : Z) (fromChatId toChatId : JsValue)
    (moreOptions : JsObject) : Js ApiResult :=
  callApi axios_post api "forwardMessage"
    (PJson (JObj (js_spread [("chat_id", toChatId);
                             ("from_chat_id", fromChatId);
                             ("message_id", JNum msgId)]
                            moreOptions))).

Definition copy (api : Api) (msgId : Z) (fromChatId toChatId : JsValue)
    (keyboard : option Keyboard) (moreOptions : JsObject) : Js ApiResult :=
  let moreOptions := with_keyboard keyboard moreOptions in
  callApi axios_post api "copyMessage"
    (PJson (JObj (js_spread [("message_id", JNum msgId);
                             ("from_chat_id", fromChatId);
                             ("chat_id", toChatId)]
                            moreOptions))).

(** [send] from its test [content instanceof Media] on, once a message
    creator has been unwrapped. A content that is neither a media nor a
    string ends the call with [undefined], after the keyboard was set. *)
Definition sendContent (api : Api) (chatId : JsValue) (content : ContentTypes)
    (keyboard : option Keyboard) (moreOptions : JsObject) : Js ApiResult :=
  match content with
  | ContentMedia (Photo m) => sendPhoto axios_post api chatId m keyboard moreOptions
  | ContentMedia (Animation m) =>
      sendAnimation axios_post api chatId m keyboard moreOptions
  | ContentMedia (Video m) => sendVideo axios_post api chatId m keyboard moreOptions
  | ContentMedia (VideoNote m) =>
      sendVideoNote axios_post api chatId m keyboard moreOptions
  | ContentMedia (Audio m) => sendAudio axios_post api chatId m keyboard moreOptions
  | ContentMedia (Document m) =>
      sendDocument axios_post api chatId m keyboard moreOptions
  | ContentMedia (Voice m) => sendVoice axios_post api chatId m keyboard moreOptions
  | ContentMedia (MediaGroup mediaGroup) =>
      sendMediaGroup axios_post api chatId mediaGroup moreOptions
  | ContentMedia (PlainMedia _) =>
      throw (error ("Media file type is not defined. " +:+
                    "Don't use Media class, use Photo, Video class instead"))
  | ContentString text =>
      let moreOptions := with_keyboard keyboard moreOptions in
      callApi axios_post api "sendMessage"
        (PJson (JObj (js_spread [("text", JStr text); ("chat_id", chatId);
                                 ("parse_mode", JStr "HTML")]
                                moreOptions)))
  | ContentUndefined | ContentNull => ret (ROther JUndefined)
  end.

(** [send]: a message creator gives its options, spread over [moreOptions],
    and the content to go on with; a location is sent at once. *)
Definition send (api : Api) (chatId : JsValue)
    (content : MessageCreator + ContentTypes)
    (keyboard : option Keyboard) (moreOptions : JsObject) : Js ApiResult :=
  match content with
  | inl creator =>
      let moreOptions := js_spread moreOptions (creator_options creator) in
      match creator with
      | MessageSend c _ => sendContent api chatId c keyboard moreOptions
      | Alert text _ | Toast text _ =>
          sendContent api chatId (ContentString text) keyboard moreOptions
      | Location latitude longitude _ =>
          sendLocation api chatId latitude longitude moreOptions
      | OtherCreator _ => ret (ROther JUndefined)
      end
  | inr c => sendContent api chatId c keyboard moreOptions
  end.

End ApiMethods.
(** * Vocabulary of the statements *)

(** The fields that the configuration loop appends for one key. *)
Definition configField (config : JsObject) (key : string)
  : list (string * FormValue) :=
  let data := js_get config key in
  if truthy data then [(key, form_field_value data)] else [].

(** What [appendMediaToFormData] appends for a resolved reference. *)
Definition mediaValue (m : string + Media) : FormValue :=
  match m with
  | inl s => FString s
  | inr md =>
      if String.eqb (passType md) "path" then FStream (media md)
      else FBuffer (media md)
  end.

Definition thumbFields (c : gmap string string) (config : JsObject) : FormData :=
  match js_get config "thumb" with
  | JMedia t => [("thumb", mediaValue (cached_or c t))]
  | _ => []
  end.

(** Every identifier held by the cache is a real (non-empty) token. *)
Definition wf_cache (c : gmap string string) : Prop :=
  ∀ k v, c !! k = Some v → v ≠ "".

Definition empty_or_absent (v : JsValue) : Prop :=
  v = JUndefined ∨ v = JNull ∨ v = JStr "".


(** The request that [callApi] posts for a method and a payload. *)
Definition request_of (api : Api) (method : string) (config : Payload) : Request :=
  {| url := "https://api.telegram.org/bot" +:+ default "" (token api)
            +:+ "/" +:+ method;
     body := config;
     headers := None |}.

(** The transport fails every request / answers every request with [result]. *)
Definition rejects (axios_post : Request → AxiosOutcome) : Prop :=
  ∀ rq, ∃ description e, axios_post rq = Rejected description e.

Definition resolves_with (axios_post : Request → AxiosOutcome)
    (result : ApiResult) : Prop :=
  ∀ rq, axios_post rq = Resolved result.

(** A call failed and left the cache of [w] as it was. *)
Definition failed_without_write_back {A} (w : World)
    (r : Completion A * World) : Prop :=
  (∃ exn, result_of r = Throw exn) ∧ cache (world_of r) = cache w.

(** The shape shared by the seven single-media senders. *)
Definition singleSend (axios_post : Request → AxiosOutcome) (api : Api)
    (method : string) (form : gmap string string → FormData)
    (path : string) (mediaKey : MediaFileTypes) : Js ApiResult :=
  let* c := getCache in
  let* message := callApi axios_post api method (PForm (form c)) in
  saveMediaFileId path mediaKey message.

(** Positional write-back: the item at a position is paired with the message
    at the same position, and each pair goes through the rule of the
    single-message write-back. *)
Definition writeBackStep (c : gmap string string)
    (am : InputSupportedMedia * IMessage) : gmap string string :=
  let path := media (base am.1) in
  if truthy_str (c !! path) then c
  else match message_field am.2 (type (base am.1)) with
       | Some info => MediaCache.saveMediaFileId c path (file_id info)
       | None => c
       end.

Definition positionalWriteBack (c : gmap string string)
    (mediaGroup : list InputSupportedMedia) (sentMessages : list IMessage)
  : gmap string string :=
  fold_left writeBackStep (zip mediaGroup sentMessages) c.

(** The stream or buffer appended for a reference that is not cached. *)
Definition binaryPart (m : Media) : FormValue := mediaValue (inr m).

(** The configuration object that [sendMediaGroup] hands to
    [buildAttachFormData], and the parts its [forEach] appends afterwards. *)
Definition groupConfig (c : gmap string string) (chatId : JsValue)
    (mediaGroup : list InputSupportedMedia) (moreOptions : JsObject) : JsObject :=
  js_spread [("chat_id", chatId);
             ("media", JArr (imap (inputMedia c) mediaGroup))]
            moreOptions.

Definition groupAttachments (c : gmap string string)
    (mediaGroup : list InputSupportedMedia) : FormData :=
  fold_left (fun fd im => attachMedia c fd im.1 im.2) (imap pair mediaGroup) [].

(** The per-item metadata of an item does not redefine the properties that
    carry its references. *)
Definition reserved_free (m : InputSupportedMedia) : Prop :=
  ∀ k, k ∈ ["media"; "thumb"] →
       (k ∉ js_keys (resolution m)) ∧ (k ∉ js_keys (options m)).

Definition is_digit (c : ascii) : bool :=
  (48 <=? N_of_ascii c)%N && (N_of_ascii c <=? 57)%N.

Fixpoint digits_only (s : string) : bool :=
  match s with
  | EmptyString => true
  | String c s' => is_digit c && digits_only s'
  end.

(** ** Sample data *)

Definition sample_cache : gmap string string := {[ "b.jpg" := "FILE_B" ]}.

Definition sample_media (t : MediaFileTypes) (path : string) : Media :=
  {| type := t; passType := "path"; media := path |}.

Definition sample_item (t : MediaFileTypes) (path : string)
    (th : option Media) : InputSupportedMedia :=
  {| base := sample_media t path; thumb := th; isVideo := false;
     resolution := []; options := [] |}.

Definition sample_config : JsObject :=
  [("chat_id", JNum 7); ("parse_mode", JStr "HTML"); ("caption", JUndefined)].

Definition sample_api : Api := {| token := Some "123:ABC" |}.

Definition sample_world : World := {| cache := sample_cache; posted := [] |}.

Definition sample_message (n : nat) (fid : string) : IMessage :=
  {| oid := n;
     m_photo := Some [{| file_id := fid +:+ "-small" |};
                      {| file_id := fid +:+ "-medium" |};
                      {| file_id := fid |}];
     m_video := Some {| file_id := fid |};
     m_video_note := Some {| file_id := fid |};
     m_audio := Some {| file_id := fid |};
     m_voice := Some {| file_id := fid |};
     m_document := Some {| file_id := fid |};
     m_animation := Some {| file_id := fid |} |}.

Definition failing_transport (rq : Request) : AxiosOutcome :=
  Rejected (Some "Bad Request: chat not found") "AxiosError".

Definition answering_transport (rq : Request) : AxiosOutcome :=
  Resolved (RMessage (sample_message 0 "ABC123")).

Definition sample_group : list InputSupportedMedia :=
  [sample_item photo "a.jpg" None;
   sample_item photo "b.jpg" None;
   sample_item video "c.mp4" None].

Definition sample_sent : list IMessage :=
  [sample_message 10 "M0"; sample_message 11 "M1"; sample_message 12 "M2"].

Definition group_transport (rq : Request) : AxiosOutcome :=
  Resolved (RMessages sample_sent).

(** A response whose only photo size carries the empty identifier, and the
    world that [sendPhoto] of a fresh photo leaves after it. *)
Definition empty_id_message : IMessage :=
  {| oid := 0; m_photo := Some [{| file_id := "" |}]; m_video := None;
     m_video_note := None; m_audio := None; m_voice := None;
     m_document := None; m_animation := None |}.

Definition empty_id_world : World :=
  world_of (sendPhoto (fun _ => Resolved (RMessage empty_id_message)) sample_api
              (JNum 7) (sample_item photo "b.jpg" None) None []
              {| cache := ∅; posted := [] |}).

Definition no_cache : gmap string string := ∅.

Definition empty_id_cache : gmap string string := {[ "a.jpg" := "" ]}.

(** An item whose options define [media] themselves. *)
Definition forced_item : InputSupportedMedia :=
  {| base := sample_media photo "a.jpg"; thumb := None; isVideo := false;
     resolution := []; options := [("media", JStr "forced")] |}.

(** ** Vocabulary of the further properties *)

(** The messages of a response, and the identifiers a transport can make the
    write-back store. *)
Definition result_messages (r : ApiResult) : list IMessage :=
  match r with
  | RMessage m => [m]
  | RMessages ms => ms
  | ROther _ => []
  end.

Definition transport_ids (axios_post : Request → AxiosOutcome)
    (Q : string → Prop) : Prop :=
  ∀ rq r m mediaKey info,
    axios_post rq = Resolved r →
    m ∈ result_messages r →
    message_field m mediaKey = Some info →
    Q (file_id info).

(** The cache keys of the media that a content sends: the primary references
    only, not their thumbnails. *)
Definition media_paths (m : MediaContent) : list string :=
  match m with
  | Photo i | Animation i | Video i | VideoNote i | Audio i | Document i
  | Voice i => [media (base i)]
  | MediaGroup mediaGroup => (fun i => media (base i)) <$> mediaGroup
  | PlainMedia _ => []
  end.

Definition content_paths (c : ContentTypes) : list string :=
  match c with
  | ContentMedia m => media_paths m
  | _ => []
  end.

Definition send_paths (content : MessageCreator + ContentTypes) : list string :=
  match content with
  | inl (MessageSend c _) => content_paths c
  | inl _ => []
  | inr c => content_paths c
  end.

Definition sample_photo_content : MessageCreator + ContentTypes :=
  inr (ContentMedia (Photo (sample_item photo "a.jpg"
                              (Some (sample_media photo "thumb.jpg"))))).

(** The call was refused for want of a token, naming the remote method, and
    left the world as it was. *)
Definition refused_without_token (method : string) (w : World)
    (r : Completion ApiResult * World) : Prop :=
  r = (Throw (NestgramError ("You can't call ." +:+ method +:+ " without token")),
       w).

(** The call posted one request for [method], a form in which the field
    [reply_markup] is there exactly with the value of [markup]. *)
Definition posts_markup (api : Api) (method : string) (w : World)
    (markup : JsValue) (r : Completion ApiResult * World) : Prop :=
  ∃ form,
    posted (world_of r) = posted w ++ [request_of api method (PForm form)]
    ∧ ∀ v, ("reply_markup", v) ∈ form ↔ v = form_field_value markup.

Definition sample_keyboard : Keyboard :=
  {| buildMarkup := JObj [("remove_keyboard", JBool true)] |}.

Definition starts_with_digit (s : string) : bool :=
  match s with
  | String a _ => is_digit a
  | EmptyString => false
  end.

Definition broken_message : IMessage :=
  {| oid := 11; m_photo := None; m_video := None; m_video_note := None;
     m_audio := None; m_voice := None; m_document := None;
     m_animation := None |}.

Definition sample_pair : list InputSupportedMedia :=
  [sample_item photo "a.jpg" None; sample_item photo "d.jpg" None].


(** * Properties *)

(** ** Objects *)

Lemma js_get_set_eq (o : JsObject) k v : js_get (js_set o k v) k = v.
Proof.
  induction o as [|[k' v'] o IH]; simpl.
  - by rewrite String.eqb_refl.
  - destruct (String.eqb k' k) eqn:E; simpl; by rewrite E.
Qed.

Lemma js_get_set_ne (o : JsObject) k k' v :
  k ≠ k' → js_get (js_set o k v) k' = js_get o k'.
Proof.
  intros Hne. induction o as [|[k0 v0] o IH]; simpl.
  - by apply String.eqb_neq in Hne as ->.
  - destruct (String.eqb k0 k) eqn:E; simpl.
    + apply String.eqb_eq in E as ->. by apply String.eqb_neq in Hne as ->.
    + by rewrite IH.
Qed.

Lemma js_keys_set (o : JsObject) k v v' :
  js_keys (js_set o k v) = js_keys (js_set o k v').
Proof.
  unfold js_keys. induction o as [|[k0 v0] o IH]; simpl; [done|].
  destruct (String.eqb k0 k); csimpl; [done|]. by f_equal.
Qed.

Lemma js_get_absent (o : JsObject) k : k ∉ js_keys o → js_get o k = JUndefined.
Proof.
  unfold js_keys. induction o as [|[k0 v0] o IH]; csimpl; [done|].
  intros Hk. apply not_elem_of_cons in Hk as [Hne Hk].
  destruct (String.eqb k0 k) eqn:E; [|by apply IH].
  apply String.eqb_eq in E. congruence.
Qed.

Lemma js_get_spread_absent (src o : JsObject) k :
  k ∉ js_keys src → js_get (js_spread o src) k = js_get o k.
Proof.
  unfold js_spread, js_keys. revert o.
  induction src as [|[k0 v0] src IH]; intros o Hk; csimpl; [done|].
  csimpl in Hk. apply not_elem_of_cons in Hk as [Hne Hk].
  rewrite IH by done. apply js_get_set_ne. congruence.
Qed.

(** ** The configuration loop of the form builders *)

Lemma appendConfig_keys (config : JsObject) (keys : list string) (fd : FormData) :
  fold_left
    (fun fd key =>
       let data := js_get config key in
       if negb (truthy data) then fd
       else form_append fd key (form_field_value data))
    keys fd
  = fd ++ mjoin (configField config <$> keys).
Proof.
  revert fd. induction keys as [|k keys IH]; intros fd; csimpl.
  - by rewrite app_nil_r.
  - rewrite IH. unfold configField at 2, form_append.
    destruct (truthy (js_get config k)); simpl; [|done].
    by rewrite <- app_assoc.
Qed.

Lemma appendConfig_app (fd : FormData) (config : JsObject) :
  appendConfig fd config = fd ++ buildAttachFormData config.
Proof.
  unfold buildAttachFormData, appendConfig. by rewrite !appendConfig_keys.
Qed.

Lemma buildAttachFormData_fields (config : JsObject) :
  buildAttachFormData config
  = mjoin (configField config <$> js_keys config).
Proof. unfold buildAttachFormData, appendConfig. by rewrite appendConfig_keys. Qed.

Lemma buildAttachFormData_elem (config : JsObject) k v :
  (k, v) ∈ buildAttachFormData config →
  k ∈ js_keys config ∧ truthy (js_get config k) = true
  ∧ v = form_field_value (js_get config k).
Proof.
  rewrite buildAttachFormData_fields. intros Hin.
  apply list_elem_of_join in Hin as (fs & Hkv & Hfs).
  apply list_elem_of_fmap in Hfs as (key & -> & Hkey).
  unfold configField in Hkv.
  destruct (truthy (js_get config key)) eqn:E; [|by apply elem_of_nil in Hkv].
  apply list_elem_of_singleton in Hkv. by simplify_eq.
Qed.

Lemma buildAttachFormData_name (config : JsObject) k :
  k ∈ form_names (buildAttachFormData config) → truthy (js_get config k) = true.
Proof.
  unfold form_names. intros Hin.
  apply list_elem_of_fmap in Hin as ([k' v] & -> & Hin).
  by apply buildAttachFormData_elem in Hin as (_ & ? & _).
Qed.

Lemma form_field_value_not_binary data : is_binary (form_field_value data) = false.
Proof. unfold form_field_value. by destruct data. Qed.

Lemma buildAttachFormData_not_binary (config : JsObject) k v :
  (k, v) ∈ buildAttachFormData config → is_binary v = false.
Proof.
  intros Hin. apply buildAttachFormData_elem in Hin as (_ & _ & ->).
  apply form_field_value_not_binary.
Qed.

(** ** The single-item form *)

Lemma appendMediaToFormData_app (fd : FormData) key m :
  appendMediaToFormData fd key m = fd ++ [(key, mediaValue m)].
Proof.
  unfold appendMediaToFormData, mediaValue, form_append.
  destruct m as [s|md]; [done|]. by destruct (String.eqb _ _).
Qed.

Lemma buildFormData_parts c fromMediaKey m (config : JsObject) :
  buildFormData c fromMediaKey m config
  = (fromMediaKey, mediaValue (cached_or c m))
      :: thumbFields c config ++ buildAttachFormData config.
Proof.
  unfold buildFormData, thumbFields. rewrite appendConfig_app.
  rewrite !appendMediaToFormData_app.
  destruct (js_get config "thumb"); try done.
  by rewrite appendMediaToFormData_app.
Qed.

Lemma truthy_str_Some (s : string) : s ≠ "" → truthy_str (Some s) = true.
Proof. intros Hs. simpl. by apply String.eqb_neq in Hs as ->. Qed.

Lemma cached_or_hit c m fid :
  c !! media m = Some fid → fid ≠ "" → cached_or c m = inl fid.
Proof.
  intros Hc Hfid. unfold cached_or, MediaCache.getMediaFileId.
  rewrite Hc. by rewrite truthy_str_Some.
Qed.

Lemma cached_or_miss c m :
  truthy_str (c !! media m) = false → cached_or c m = inr m.
Proof. intros Hc. unfold cached_or, MediaCache.getMediaFileId. by rewrite Hc. Qed.

Lemma has_true c path :
  MediaCache.has c path = true → ∃ fid, c !! path = Some fid.
Proof. unfold MediaCache.has. intros [fid ?]%bool_decide_eq_true. eauto. Qed.

Lemma has_false c path : MediaCache.has c path = false → c !! path = None.
Proof.
  unfold MediaCache.has. intros H%bool_decide_eq_false.
  by apply eq_None_not_Some.
Qed.

Lemma wf_cache_truthy c path :
  wf_cache c → truthy_str (c !! path) = MediaCache.has c path.
Proof.
  intros Hwf. destruct (MediaCache.has c path) eqn:E.
  - apply has_true in E as [fid E]. rewrite E. apply truthy_str_Some. eauto.
  - apply has_false in E. by rewrite E.
Qed.

Lemma thumbFields_elem c (config : JsObject) k v :
  (k, v) ∈ thumbFields c config →
  k = "thumb" ∧ ∃ t, js_get config "thumb" = JMedia t ∧ v = mediaValue (cached_or c t).
Proof.
  unfold thumbFields. destruct (js_get config "thumb") eqn:E;
    try (by intros ?%elem_of_nil).
  intros Hin%list_elem_of_singleton. simplify_eq. eauto.
Qed.

Lemma sample_cache_wf : wf_cache sample_cache.
Proof.
  intros k v. unfold sample_cache.
  intros [_ <-]%lookup_singleton_Some. done.
Qed.

(** C4 (amended): when the lookup of the key of the primary media gives a
    non-empty identifier, the first field of the single-item form is that
    identifier as a plain string; a stream or buffer can then only be the
    part of a thumbnail whose own lookup gives no identifier or the empty
    one; and when the lookup of the thumbnail gives a non-empty identifier
    too, the [thumb] field is that identifier and the form has no binary
    part. *)
Theorem buildFormData_cache_hit c fromMediaKey m (config : JsObject) fid :
  MediaCache.getMediaFileId c (media m) = Some fid →
  fid ≠ "" →
  buildFormData c fromMediaKey m config !! 0%nat
  = Some (fromMediaKey, FString fid)
  ∧ (∀ k v, (k, v) ∈ buildFormData c fromMediaKey m config →
            is_binary v = true →
            k = "thumb"
            ∧ ∃ t, js_get config "thumb" = JMedia t
                   ∧ truthy_str (MediaCache.getMediaFileId c (media t)) = false
                   ∧ v = mediaValue (inr t))
  ∧ (∀ t tid, js_get config "thumb" = JMedia t →
              MediaCache.getMediaFileId c (media t) = Some tid →
              tid ≠ "" →
              buildFormData c fromMediaKey m config !! 1%nat
              = Some ("thumb", FString tid)
              ∧ ∀ k v, (k, v) ∈ buildFormData c fromMediaKey m config →
                       is_binary v = false).
Proof.
  unfold MediaCache.getMediaFileId. intros Hfid Hne.
  rewrite buildFormData_parts.
  rewrite (cached_or_hit c m fid) by done. simpl.
  split_and!; [done|..].
  - intros k v Hin Hbin.
    apply elem_of_cons in Hin as [Heq|Hin]; [by simplify_eq|].
    apply elem_of_app in Hin as [Hin|Hin].
    + apply thumbFields_elem in Hin as (-> & t & Ht & ->).
      split; [done|]. exists t. split; [done|].
      destruct (truthy_str (c !! media t)) eqn:Et.
      * unfold cached_or, MediaCache.getMediaFileId in Hbin.
        rewrite Et in Hbin. done.
      * split; [done|]. by rewrite cached_or_miss.
    + apply buildAttachFormData_not_binary in Hin. congruence.
  - intros t tid Ht Htid Htne. unfold thumbFields. rewrite Ht.
    rewrite (cached_or_hit c t tid) by done. simpl.
    split; [done|].
    intros k v Hin.
    apply elem_of_cons in Hin as [Heq|Hin]; [by simplify_eq|].
    apply elem_of_cons in Hin as [Heq|Hin]; [by simplify_eq|].
    by apply buildAttachFormData_not_binary in Hin.
Qed.

Lemma buildFormData_cache_hit_witness :
  buildFormData sample_cache "photo" (sample_media photo "b.jpg")
    sample_config !! 0%nat = Some ("photo", FString "FILE_B").
Proof.
  destruct (buildFormData_cache_hit sample_cache "photo"
              (sample_media photo "b.jpg") sample_config "FILE_B")
    as (Hfirst & _).
  - reflexivity.
  - discriminate.
  - exact Hfirst.
Defined.

(** The claim as it was stated fails on a key that is present with the empty
    identifier, a state that [sendPhoto] reaches from a response whose
    identifier is empty: the key is in the cache, and yet the form carries
    the stream of the file, not the cached identifier. *)
Lemma buildFormData_cache_hit_counterexample :
  MediaCache.has (cache empty_id_world) "b.jpg" = true
  ∧ MediaCache.getMediaFileId (cache empty_id_world) "b.jpg" = Some ""
  ∧ buildFormData (cache empty_id_world) "photo" (sample_media photo "b.jpg")
      sample_config
    = [("photo", FStream "b.jpg"); ("chat_id", FNumber 7);
       ("parse_mode", FString "HTML")]
  ∧ buildFormData (cache empty_id_world) "photo" (sample_media photo "b.jpg")
      sample_config !! 0%nat
    ≠ Some ("photo", FString "").
Proof. vm_compute. split_and!; [reflexivity|reflexivity|reflexivity|discriminate]. Qed.

(** A binary part of a single-item form is always the part of a reference
    whose key the cache does not resolve. *)
Lemma buildFormData_binary_only_on_miss c fromMediaKey m (config : JsObject) k v :
  (k, v) ∈ buildFormData c fromMediaKey m config →
  is_binary v = true →
  (k = fromMediaKey ∧ v = mediaValue (inr m)
   ∧ truthy_str (MediaCache.getMediaFileId c (media m)) = false)
  ∨ (k = "thumb"
     ∧ ∃ t, js_get config "thumb" = JMedia t ∧ v = mediaValue (inr t)
            ∧ truthy_str (MediaCache.getMediaFileId c (media t)) = false).
Proof.
  rewrite buildFormData_parts. intros Hin Hbin.
  assert (Hres : ∀ x, is_binary (mediaValue (cached_or c x)) = true →
                      cached_or c x = inr x
                      ∧ truthy_str (MediaCache.getMediaFileId c (media x)) = false).
  { intros x. unfold cached_or.
    destruct (truthy_str (MediaCache.getMediaFileId c (media x))); by simpl. }
  apply elem_of_cons in Hin as [Heq|Hin].
  - simplify_eq. left. destruct (Hres m Hbin) as [-> ?]. done.
  - apply elem_of_app in Hin as [Hin|Hin].
    + apply thumbFields_elem in Hin as (-> & t & Ht & ->).
      right. split; [done|]. exists t. destruct (Hres t Hbin) as [-> ?]. done.
    + apply buildAttachFormData_not_binary in Hin. congruence.
Qed.

Example buildFormData_hit_example :
  buildFormData sample_cache "photo" (sample_media photo "b.jpg") sample_config
  = [("photo", FString "FILE_B"); ("chat_id", FNumber 7);
     ("parse_mode", FString "HTML")].
Proof. vm_compute. reflexivity. Qed.

Example buildFormData_miss_example :
  buildFormData sample_cache "photo" (sample_media photo "a.jpg") sample_config
  = [("photo", FStream "a.jpg"); ("chat_id", FNumber 7);
     ("parse_mode", FString "HTML")].
Proof. vm_compute. reflexivity. Qed.

(** ** Omitted configuration fields *)

Lemma truthy_empty_or_absent v : empty_or_absent v → truthy v = false.
Proof. by intros [->|[->| ->]]. Qed.

Lemma buildFormData_name_falsy c fromMediaKey m (config : JsObject) key :
  truthy (js_get config key) = false →
  key ≠ fromMediaKey →
  key ∉ form_names (buildFormData c fromMediaKey m config).
Proof.
  intros Hfalsy Hne. rewrite buildFormData_parts. unfold form_names.
  rewrite fmap_cons, fmap_app. simpl.
  intros Hin. apply elem_of_cons in Hin as [?|Hin]; [done|].
  apply elem_of_app in Hin as [Hin|Hin].
  - apply list_elem_of_fmap in Hin as ([k v] & -> & Hin).
    apply thumbFields_elem in Hin as (Hk & t & Ht & _). simpl in *. subst k.
    by rewrite Ht in Hfalsy.
  - apply buildAttachFormData_name in Hin. congruence.
Qed.

(** C7: a configuration field whose value is empty or absent ([undefined],
    [null] or the empty string; a missing key reads as [undefined]) gives no
    field to the form, in either form builder: the only field of that name a
    single-item form can hold is the media field itself. *)
Theorem empty_fields_are_omitted (config : JsObject) key :
  empty_or_absent (js_get config key) →
  (key ∉ form_names (buildAttachFormData config))
  ∧ ∀ c fromMediaKey m,
      key ≠ fromMediaKey →
      key ∉ form_names (buildFormData c fromMediaKey m config).
Proof.
  intros Hfalsy%truthy_empty_or_absent. split.
  - intros Hin%buildAttachFormData_name. congruence.
  - intros c fromMediaKey m Hne. by apply buildFormData_name_falsy.
Qed.

Lemma empty_fields_are_omitted_witness :
  ("caption" ∉ form_names (buildAttachFormData sample_config))
  ∧ ("caption" ∉ form_names (buildFormData sample_cache "photo"
                               (sample_media photo "a.jpg") sample_config)).
Proof.
  destruct (empty_fields_are_omitted sample_config "caption") as [Hattach Hform].
  - left. reflexivity.
  - split; [exact Hattach|]. apply Hform. discriminate.
Defined.

Example one_populated_one_undefined :
  buildAttachFormData [("chat_id", JNum 7); ("caption", JUndefined)]
  = [("chat_id", FNumber 7)].
Proof. vm_compute. reflexivity. Qed.

Lemma configField_set (config : JsObject) key v v' k :
  truthy v = false → truthy v' = false →
  configField (js_set config key v) k = configField (js_set config key v') k.
Proof.
  intros Hv Hv'. unfold configField.
  destruct (decide (key = k)) as [->|Hne].
  - rewrite !js_get_set_eq. by rewrite Hv, Hv'.
  - by rewrite !js_get_set_ne.
Qed.

Lemma buildAttachFormData_set (config : JsObject) key v v' :
  truthy v = false → truthy v' = false →
  buildAttachFormData (js_set config key v)
  = buildAttachFormData (js_set config key v').
Proof.
  intros Hv Hv'. rewrite !buildAttachFormData_fields.
  rewrite (js_keys_set config key v v'). f_equal.
  apply list_fmap_ext. intros _ k _. by apply configField_set.
Qed.

Lemma thumbFields_set c (config : JsObject) key v v' :
  truthy v = false → truthy v' = false →
  thumbFields c (js_set config key v) = thumbFields c (js_set config key v').
Proof.
  intros Hv Hv'. unfold thumbFields.
  destruct (decide (key = "thumb")) as [->|Hne].
  - rewrite !js_get_set_eq. by destruct v, v'.
  - by rewrite !js_get_set_ne.
Qed.

(** C10: the test of the form builders is truthiness. A field set to a falsy
    value ([false], [0], the empty string, [null]) is dropped, and the form
    is the very form built when that field is [undefined]. *)
Theorem falsy_fields_are_dropped (config : JsObject) key v :
  truthy v = false →
  (key ∉ form_names (buildAttachFormData (js_set config key v)))
  ∧ buildAttachFormData (js_set config key v)
    = buildAttachFormData (js_set config key JUndefined)
  ∧ ∀ c fromMediaKey m,
      buildFormData c fromMediaKey m (js_set config key v)
      = buildFormData c fromMediaKey m (js_set config key JUndefined).
Proof.
  intros Hv. split_and!.
  - intros Hin%buildAttachFormData_name. rewrite js_get_set_eq in Hin. congruence.
  - by apply buildAttachFormData_set.
  - intros c fromMediaKey m. rewrite !buildFormData_parts.
    rewrite (thumbFields_set c config key v JUndefined) by done.
    by rewrite (buildAttachFormData_set config key v JUndefined).
Qed.

Lemma falsy_fields_are_dropped_witness :
  ("disable_notification"
     ∉ form_names (buildAttachFormData
                     (js_set sample_config "disable_notification" (JBool false))))
  ∧ buildAttachFormData
      (js_set sample_config "disable_notification" (JBool false))
    = buildAttachFormData
        (js_set sample_config "disable_notification" JUndefined)
  ∧ buildFormData sample_cache "photo" (sample_media photo "a.jpg")
      (js_set sample_config "disable_notification" (JBool false))
    = buildFormData sample_cache "photo" (sample_media photo "a.jpg")
        (js_set sample_config "disable_notification" JUndefined).
Proof.
  destruct (falsy_fields_are_dropped sample_config "disable_notification"
              (JBool false)) as (Hname & Hattach & Hform).
  - reflexivity.
  - split_and!; [exact Hname | exact Hattach | apply Hform].
Defined.

Example false_zero_and_empty_are_dropped :
  buildAttachFormData
    [("chat_id", JNum 7); ("disable_notification", JBool false);
     ("duration", JNum 0); ("caption", JStr "")]
  = [("chat_id", FNumber 7)].
Proof. vm_compute. reflexivity. Qed.

Example true_and_nonzero_are_kept :
  buildAttachFormData
    [("chat_id", JNum 7); ("disable_notification", JBool true);
     ("duration", JNum 3); ("reply_markup", JObj [("remove_keyboard", JBool true)])]
  = [("chat_id", FNumber 7); ("disable_notification", FBool true);
     ("duration", FNumber 3);
     ("reply_markup",
      FString (JSON_stringify (JObj [("remove_keyboard", JBool true)])))].
Proof. vm_compute. reflexivity. Qed.

(** ** Calls *)

Lemma callApi_no_token axios_post api method config w :
  truthy_str (token api) = false →
  callApi axios_post api method config w
  = (Throw (error ("You can't call ." +:+ method +:+ " without token")), w).
Proof. intros Htok. unfold callApi. by rewrite Htok. Qed.

Lemma callApi_with_token axios_post api method config w :
  truthy_str (token api) = true →
  callApi axios_post api method config w
  = (match axios_post (request_of api method config) with
     | Resolved result => Return result
     | Rejected description e =>
         Throw (error (".callApi error: " +:+
                       (if truthy_str description then default e description
                        else e)))
     end,
     {| cache := cache w;
        posted := posted w ++ [request_of api method config] |}).
Proof.
  intros Htok. unfold callApi, call, bind, post, request_of.
  rewrite Htok. simpl. by destruct (axios_post _).
Qed.

Lemma callApi_cache axios_post api method config w :
  cache (world_of (callApi axios_post api method config w)) = cache w.
Proof.
  destruct (truthy_str (token api)) eqn:Htok.
  - by rewrite callApi_with_token.
  - by rewrite callApi_no_token.
Qed.

Lemma callApi_rejected axios_post api method config w :
  rejects axios_post →
  failed_without_write_back w (callApi axios_post api method config w).
Proof.
  intros Hrej. split; [|apply callApi_cache].
  destruct (truthy_str (token api)) eqn:Htok.
  - rewrite callApi_with_token by done.
    destruct (Hrej (request_of api method config)) as (d & e & ->).
    simpl. eauto.
  - rewrite callApi_no_token by done. simpl. eauto.
Qed.

(** C9: without a configured token (none, or the empty string) [callApi]
    throws at once, and the world is left as it was: in particular no
    request has been posted. *)
Theorem callApi_without_token axios_post api method config w :
  truthy_str (token api) = false →
  result_of (callApi axios_post api method config w)
  = Throw (error ("You can't call ." +:+ method +:+ " without token"))
  ∧ world_of (callApi axios_post api method config w) = w
  ∧ posted (world_of (callApi axios_post api method config w)) = posted w.
Proof. intros Htok. by rewrite callApi_no_token. Qed.

Lemma callApi_without_token_witness :
  result_of (callApi failing_transport {| token := None |} "getMe"
               (PJson JUndefined) sample_world)
  = Throw (error ("You can't call ." +:+ "getMe" +:+ " without token"))
  ∧ world_of (callApi failing_transport {| token := None |} "getMe"
                (PJson JUndefined) sample_world) = sample_world
  ∧ posted (world_of (callApi failing_transport {| token := None |} "getMe"
                        (PJson JUndefined) sample_world))
    = posted sample_world.
Proof.
  apply (callApi_without_token failing_transport {| token := None |} "getMe"
           (PJson JUndefined) sample_world).
  reflexivity.
Defined.

(** With a token, the request is posted, whatever the transport answers. *)
Lemma callApi_posts axios_post api method config w :
  truthy_str (token api) = true →
  posted (world_of (callApi axios_post api method config w))
  = posted w ++ [request_of api method config].
Proof. intros Htok. by rewrite callApi_with_token. Qed.

Example callApi_empty_token :
  callApi failing_transport {| token := Some "" |} "getMe" (PJson JUndefined)
    sample_world
  = (Throw (NestgramError "You can't call .getMe without token"), sample_world).
Proof. vm_compute. reflexivity. Qed.

Example callApi_error_description :
  result_of (callApi failing_transport sample_api "getMe" (PJson JUndefined)
               sample_world)
  = Throw (NestgramError ".callApi error: Bad Request: chat not found").
Proof. vm_compute. reflexivity. Qed.

(** ** Write-back of one message *)

Lemma store_present (c : gmap string string) path fileId :
  is_Some (c !! path) → MediaCache.saveMediaFileId c path fileId = c.
Proof. intros [v Hv]. unfold MediaCache.saveMediaFileId. by rewrite Hv. Qed.

Lemma store_absent (c : gmap string string) path fileId :
  c !! path = None →
  MediaCache.saveMediaFileId c path fileId = <[path := fileId]> c.
Proof. intros Hc. unfold MediaCache.saveMediaFileId. by rewrite Hc. Qed.

Lemma store_lookup_other (c : gmap string string) path fileId k :
  k ≠ path → MediaCache.saveMediaFileId c path fileId !! k = c !! k.
Proof.
  intros Hne. unfold MediaCache.saveMediaFileId.
  destruct (c !! path); [done|]. by rewrite lookup_insert_ne.
Qed.

Lemma store_keeps (c : gmap string string) path fileId k v :
  c !! k = Some v → MediaCache.saveMediaFileId c path fileId !! k = Some v.
Proof.
  intros Hk. unfold MediaCache.saveMediaFileId.
  destruct (c !! path) eqn:E; [done|].
  rewrite lookup_insert_ne; [done|]. congruence.
Qed.

Lemma saveMediaFileId_unfold path mediaKey message w :
  saveMediaFileId path mediaKey message w
  = if truthy_str (cache w !! path) then (Return message, w)
    else match mediaFileInfo_of message mediaKey with
         | Some info =>
             (Return message,
              {| cache := MediaCache.saveMediaFileId (cache w) path (file_id info);
                 posted := posted w |})
         | None => (Throw TypeError, w)
         end.
Proof.
  unfold saveMediaFileId, bind, getCache, setCache, ret, throw,
    MediaCache.getMediaFileId.
  destruct (truthy_str (cache w !! path)); simpl; [done|].
  by destruct (mediaFileInfo_of message mediaKey).
Qed.

Lemma saveMediaFileId_present path mediaKey message w :
  is_Some (cache w !! path) →
  world_of (saveMediaFileId path mediaKey message w) = w.
Proof.
  intros Hsome. rewrite saveMediaFileId_unfold.
  destruct (truthy_str (cache w !! path)); [done|].
  destruct (mediaFileInfo_of message mediaKey); [|done].
  unfold world_of. simpl. rewrite store_present by done. by destruct w.
Qed.

Lemma saveMediaFileId_absent path mediaKey message w info :
  cache w !! path = None →
  mediaFileInfo_of message mediaKey = Some info →
  saveMediaFileId path mediaKey message w
  = (Return message,
     {| cache := <[path := file_id info]> (cache w); posted := posted w |}).
Proof.
  intros Hc Hinfo. rewrite saveMediaFileId_unfold, Hc, Hinfo. simpl.
  by rewrite store_absent.
Qed.

Lemma saveMediaFileId_keeps path mediaKey message w k v :
  cache w !! k = Some v →
  cache (world_of (saveMediaFileId path mediaKey message w)) !! k = Some v.
Proof.
  intros Hk. rewrite saveMediaFileId_unfold.
  destruct (truthy_str (cache w !! path)); [done|].
  destruct (mediaFileInfo_of message mediaKey); [|done].
  unfold world_of. simpl. by apply store_keeps.
Qed.

(** C3: once a key has an identifier, a write-back for that key changes
    nothing, whatever message it is given: the world is the same, the key
    still resolves to the identifier it had, and a store of another
    identifier under that key leaves the first one in place. *)
Theorem write_back_is_idempotent_insert (w : World) path v1 :
  cache w !! path = Some v1 →
  ∀ mediaKey message v2,
    world_of (saveMediaFileId path mediaKey message w) = w
    ∧ MediaCache.getMediaFileId
        (cache (world_of (saveMediaFileId path mediaKey message w))) path
      = Some v1
    ∧ MediaCache.getMediaFileId
        (MediaCache.saveMediaFileId (cache w) path v2) path
      = Some v1.
Proof.
  intros Hc mediaKey message v2.
  rewrite saveMediaFileId_present by eauto.
  unfold MediaCache.getMediaFileId. rewrite store_present by eauto. done.
Qed.

Lemma write_back_is_idempotent_insert_witness :
  world_of (saveMediaFileId "b.jpg" photo
              (RMessage (sample_message 1 "OTHER")) sample_world)
  = sample_world
  ∧ MediaCache.getMediaFileId
      (cache (world_of (saveMediaFileId "b.jpg" photo
                          (RMessage (sample_message 1 "OTHER")) sample_world)))
      "b.jpg"
    = Some "FILE_B"
  ∧ MediaCache.getMediaFileId
      (MediaCache.saveMediaFileId (cache sample_world) "b.jpg" "OTHER") "b.jpg"
    = Some "FILE_B".
Proof.
  apply (write_back_is_idempotent_insert sample_world "b.jpg" "FILE_B").
  reflexivity.
Defined.

(** Writing back [v1] for a fresh key and then [v2] leaves [v1]. *)
Lemma write_back_twice path k1 k2 message1 message2 info1 w :
  cache w !! path = None →
  mediaFileInfo_of message1 k1 = Some info1 →
  let w1 := world_of (saveMediaFileId path k1 message1 w) in
  let w2 := world_of (saveMediaFileId path k2 message2 w1) in
  cache w1 !! path = Some (file_id info1) ∧ w2 = w1.
Proof.
  intros Hc Hinfo. simpl.
  rewrite (saveMediaFileId_absent path k1 message1 w info1) by done.
  unfold world_of at 2 3. simpl.
  assert (Hstored : <[path := file_id info1]> (cache w) !! path
                    = Some (file_id info1)) by apply lookup_insert_eq.
  split; [done|]. apply saveMediaFileId_present. simpl. eauto.
Qed.

Lemma store_twice (c : gmap string string) k v1 v2 :
  c !! k = None →
  MediaCache.getMediaFileId
    (MediaCache.saveMediaFileId (MediaCache.saveMediaFileId c k v1) k v2) k
  = Some v1.
Proof.
  intros Hc. unfold MediaCache.getMediaFileId.
  rewrite (store_absent c) by done.
  rewrite store_present; rewrite lookup_insert_eq; eauto.
Qed.

Example write_back_twice_example :
  let w1 := world_of (saveMediaFileId "a.jpg" photo
                        (RMessage (sample_message 0 "FIRST")) sample_world) in
  let w2 := world_of (saveMediaFileId "a.jpg" photo
                        (RMessage (sample_message 1 "SECOND")) w1) in
  cache w2 !! "a.jpg" = Some "FIRST".
Proof. vm_compute. reflexivity. Qed.

(** ** Sending one media *)

Lemma singleSend_rejected axios_post api method form path mediaKey w :
  rejects axios_post →
  failed_without_write_back w
    (singleSend axios_post api method form path mediaKey w).
Proof.
  intros Hrej. unfold singleSend, bind, getCache.
  destruct (callApi_rejected axios_post api method (PForm (form (cache w))) w Hrej)
    as [[exn Hexn] Hcache].
  destruct (callApi axios_post api method (PForm (form (cache w))) w)
    as [[result|exn'] w'] eqn:E; simpl in *; [done|].
  split; eauto.
Qed.

Lemma singleSend_resolved axios_post api method form path mediaKey w m info :
  truthy_str (token api) = true →
  resolves_with axios_post (RMessage m) →
  cache w !! path = None →
  message_field m mediaKey = Some info →
  result_of (singleSend axios_post api method form path mediaKey w)
  = Return (RMessage m)
  ∧ cache (world_of (singleSend axios_post api method form path mediaKey w))
    = <[path := file_id info]> (cache w).
Proof.
  intros Htok Hres Hc Hinfo. unfold singleSend, bind, getCache.
  rewrite callApi_with_token by done. rewrite Hres.
  rewrite (saveMediaFileId_absent _ _ _ _ info) by done. done.
Qed.

Lemma message_field_photo m sizes :
  m_photo m = Some sizes → message_field m photo = last sizes.
Proof. intros Hm. simpl. rewrite Hm. by rewrite last_lookup, Nat.sub_1_r. Qed.

(** C6: after a successful [sendPhoto] for a key the cache did not hold, the
    key resolves to the identifier of the last element of the message's list
    of photo sizes; the senders of the other kinds store the identifier of
    the single media object of their kind. *)
Theorem single_send_writes_back axios_post api chatId item keyboard moreOptions
    w m :
  truthy_str (token api) = true →
  resolves_with axios_post (RMessage m) →
  cache w !! media (base item) = None →
  let written (r : Completion ApiResult * World) (info : IFileInfo) :=
    result_of r = Return (RMessage m)
    ∧ MediaCache.getMediaFileId (cache (world_of r)) (media (base item))
      = Some (file_id info) in
  (∀ sizes largest,
      m_photo m = Some sizes → last sizes = Some largest →
      written (sendPhoto axios_post api chatId item keyboard moreOptions w)
              largest)
  ∧ (∀ info, m_video m = Some info →
       written (sendVideo axios_post api chatId item keyboard moreOptions w) info)
  ∧ (∀ info, m_video_note m = Some info →
       written (sendVideoNote axios_post api chatId item keyboard moreOptions w)
               info)
  ∧ (∀ info, m_audio m = Some info →
       written (sendAudio axios_post api chatId item keyboard moreOptions w) info)
  ∧ (∀ info, m_voice m = Some info →
       written (sendVoice axios_post api chatId item keyboard moreOptions w) info)
  ∧ (∀ info, m_document m = Some info →
       written (sendDocument axios_post api chatId item keyboard moreOptions w)
               info)
  ∧ (∀ info, m_animation m = Some info →
       written (sendAnimation axios_post api chatId item keyboard moreOptions w)
               info).
Proof.
  intros Htok Hres Hc written.
  assert (Hgen : ∀ method form mediaKey info,
             message_field m mediaKey = Some info →
             written (singleSend axios_post api method form
                        (media (base item)) mediaKey w) info).
  { intros method form mediaKey info Hinfo.
    destruct (singleSend_resolved axios_post api method form
                (media (base item)) mediaKey w m info) as [Hr Hcache];
      try done.
    split; [done|]. unfold MediaCache.getMediaFileId.
    rewrite Hcache. apply lookup_insert_eq. }
  split_and!.
  - intros sizes largest Hsizes Hlast. apply Hgen.
    by rewrite (message_field_photo m sizes).
  - intros info Hinfo. by apply Hgen.
  - intros info Hinfo. by apply Hgen.
  - intros info Hinfo. by apply Hgen.
  - intros info Hinfo. by apply Hgen.
  - intros info Hinfo. by apply Hgen.
  - intros info Hinfo. by apply Hgen.
Qed.

Lemma single_send_writes_back_witness :
  result_of (sendPhoto answering_transport sample_api (JNum 7)
               (sample_item photo "a.jpg" None) None [] sample_world)
  = Return (RMessage (sample_message 0 "ABC123"))
  ∧ MediaCache.getMediaFileId
      (cache (world_of (sendPhoto answering_transport sample_api (JNum 7)
                          (sample_item photo "a.jpg" None) None []
                          sample_world)))
      "a.jpg"
    = Some "ABC123".
Proof.
  assert (Htok : truthy_str (token sample_api) = true) by reflexivity.
  assert (Hres : resolves_with answering_transport
                   (RMessage (sample_message 0 "ABC123")))
    by (intros rq; reflexivity).
  assert (Hc : cache sample_world !! media (base (sample_item photo "a.jpg" None))
               = None) by (vm_compute; reflexivity).
  destruct (single_send_writes_back answering_transport sample_api (JNum 7)
              (sample_item photo "a.jpg" None) None [] sample_world
              (sample_message 0 "ABC123") Htok Hres Hc) as [Hphoto _].
  apply (Hphoto [{| file_id := "ABC123" +:+ "-small" |};
                 {| file_id := "ABC123" +:+ "-medium" |};
                 {| file_id := "ABC123" |}] {| file_id := "ABC123" |});
    reflexivity.
Defined.

Example sendPhoto_caches_largest :
  map_to_list
    (cache (world_of (sendPhoto answering_transport sample_api (JNum 7)
                        (sample_item photo "a.jpg" None) None [] sample_world)))
  = [("a.jpg", "ABC123"); ("b.jpg", "FILE_B")].
Proof. vm_compute. reflexivity. Qed.

(** A message without photo sizes, or with an empty list of them, makes the
    write-back raise instead of storing anything. *)
Example sendPhoto_without_sizes :
  let m := {| oid := 0; m_photo := Some []; m_video := None;
              m_video_note := None; m_audio := None; m_voice := None;
              m_document := None; m_animation := None |} in
  let r := sendPhoto (fun _ => Resolved (RMessage m)) sample_api (JNum 7)
             (sample_item photo "a.jpg" None) None [] sample_world in
  result_of r = Throw TypeError ∧ cache (world_of r) = sample_cache.
Proof. vm_compute. split; reflexivity. Qed.

(** ** Failed calls *)

Lemma sendMediaGroup_rejected axios_post api chatId mediaGroup moreOptions w :
  rejects axios_post →
  failed_without_write_back w
    (sendMediaGroup axios_post api chatId mediaGroup moreOptions w).
Proof.
  intros Hrej. unfold sendMediaGroup, bind, getCache.
  set (formData := mediaGroupFormData (cache w) chatId mediaGroup moreOptions).
  destruct (callApi_rejected axios_post api "sendMediaGroup" (PForm formData) w Hrej)
    as [[exn Hexn] Hcache].
  destruct (callApi axios_post api "sendMediaGroup" (PForm formData) w)
    as [[result|exn'] w'] eqn:E; simpl in *; [done|].
  split; eauto.
Qed.

(** C8: when the transport rejects the request, every send operation (the
    seven single-media senders and [sendMediaGroup]) ends by throwing, and
    the cache is the cache the call started with. *)
Theorem failed_send_leaves_cache axios_post api chatId item mediaGroup keyboard
    moreOptions w :
  rejects axios_post →
  failed_without_write_back w
    (sendPhoto axios_post api chatId item keyboard moreOptions w)
  ∧ failed_without_write_back w
      (sendVideo axios_post api chatId item keyboard moreOptions w)
  ∧ failed_without_write_back w
      (sendVideoNote axios_post api chatId item keyboard moreOptions w)
  ∧ failed_without_write_back w
      (sendAudio axios_post api chatId item keyboard moreOptions w)
  ∧ failed_without_write_back w
      (sendVoice axios_post api chatId item keyboard moreOptions w)
  ∧ failed_without_write_back w
      (sendDocument axios_post api chatId item keyboard moreOptions w)
  ∧ failed_without_write_back w
      (sendAnimation axios_post api chatId item keyboard moreOptions w)
  ∧ failed_without_write_back w
      (sendMediaGroup axios_post api chatId mediaGroup moreOptions w).
Proof.
  intros Hrej.
  split_and!; try (by apply singleSend_rejected).
  by apply sendMediaGroup_rejected.
Qed.

(** A response that resolves without a message (a payload with no result)
    leaves the cache as it was too: there is nothing to write back. *)
Lemma singleSend_without_message axios_post api method form path mediaKey w v :
  resolves_with axios_post (ROther v) →
  cache (world_of (singleSend axios_post api method form path mediaKey w))
  = cache w.
Proof.
  intros Hres. unfold singleSend, bind, getCache.
  destruct (truthy_str (token api)) eqn:Htok.
  - rewrite callApi_with_token by done. rewrite Hres.
    rewrite saveMediaFileId_unfold. simpl.
    by destruct (truthy_str (cache w !! path)).
  - by rewrite callApi_no_token.
Qed.

Lemma failing_transport_rejects : rejects failing_transport.
Proof. intros rq. unfold failing_transport. eauto. Qed.

Lemma failed_send_leaves_cache_witness :
  failed_without_write_back sample_world
    (sendPhoto failing_transport sample_api (JNum 7)
       (sample_item photo "a.jpg" None) None [] sample_world)
  ∧ failed_without_write_back sample_world
      (sendMediaGroup failing_transport sample_api (JNum 7)
         [sample_item photo "a.jpg" None; sample_item photo "b.jpg" None] []
         sample_world).
Proof.
  destruct (failed_send_leaves_cache failing_transport sample_api (JNum 7)
              (sample_item photo "a.jpg" None)
              [sample_item photo "a.jpg" None; sample_item photo "b.jpg" None]
              None [] sample_world failing_transport_rejects)
    as (Hphoto & _ & _ & _ & _ & _ & _ & Hgroup).
  split; [exact Hphoto | exact Hgroup].
Defined.

Example failed_sendPhoto :
  sendPhoto failing_transport sample_api (JNum 7)
    (sample_item photo "a.jpg" None) None [] sample_world
  = (Throw (NestgramError ".callApi error: Bad Request: chat not found"),
     {| cache := sample_cache;
        posted :=
          [{| url := "https://api.telegram.org/bot123:ABC/sendPhoto";
              body := PForm [("photo", FStream "a.jpg"); ("chat_id", FNumber 7);
                             ("parse_mode", FString "HTML")];
              headers := None |}] |}).
Proof. vm_compute. reflexivity. Qed.

(** ** Write-back of a media group *)

Lemma indexOf_middle (pre rest : list IMessage) m :
  NoDup (oid <$> (pre ++ m :: rest)) →
  indexOf (pre ++ m :: rest) m = Some (length pre).
Proof.
  induction pre as [|x pre IH]; csimpl; intros Hnd.
  - by rewrite Nat.eqb_refl.
  - apply NoDup_cons in Hnd as [Hx Hnd].
    assert (oid x ≠ oid m) as Hne.
    { intros Heq. apply Hx. rewrite Heq, fmap_app, fmap_cons.
      apply elem_of_app. right. apply elem_of_cons. by left. }
    apply Nat.eqb_neq in Hne as ->. by rewrite IH.
Qed.

Lemma writeBack_run mediaGroup sentMessages m i a info w :
  indexOf sentMessages m = Some i →
  mediaGroup !! i = Some a →
  message_field m (type (base a)) = Some info →
  writeBack mediaGroup sentMessages m w
  = (Return tt,
     {| cache := writeBackStep (cache w) (a, m); posted := posted w |}).
Proof.
  intros Hidx Ha Hinfo. unfold writeBack, writeBackStep.
  rewrite Hidx. simpl. rewrite Ha. unfold bind.
  rewrite saveMediaFileId_unfold. simpl. rewrite Hinfo.
  destruct (truthy_str (cache w !! media (base a))); simpl; [|done].
  by destruct w.
Qed.

Lemma forEach_writeBack mediaGroup sentMessages :
  NoDup (oid <$> sentMessages) →
  (∀ i a m, mediaGroup !! i = Some a → sentMessages !! i = Some m →
            is_Some (message_field m (type (base a)))) →
  ∀ rest pre mgrest mgpre w,
    sentMessages = pre ++ rest →
    mediaGroup = mgpre ++ mgrest →
    length pre = length mgpre →
    length rest = length mgrest →
    forEach (writeBack mediaGroup sentMessages) rest w
    = (Return tt,
       {| cache := fold_left writeBackStep (zip mgrest rest) (cache w);
          posted := posted w |}).
Proof.
  intros Hnd Hfields rest.
  induction rest as [|m rest IH]; intros pre mgrest mgpre w Hms Hmg Hpre Hrest.
  - destruct mgrest; [|done]. simpl. by destruct w.
  - destruct mgrest as [|a mgrest]; [done|]. simpl in Hrest.
    assert (Hidx : indexOf sentMessages m = Some (length pre)).
    { rewrite Hms. apply indexOf_middle. by rewrite <- Hms. }
    assert (Ha : mediaGroup !! length pre = Some a).
    { rewrite Hmg, Hpre. by rewrite list_lookup_middle. }
    assert (Hm : sentMessages !! length pre = Some m).
    { rewrite Hms. by rewrite list_lookup_middle. }
    destruct (Hfields _ _ _ Ha Hm) as [info Hinfo].
    simpl. unfold bind at 1.
    rewrite (writeBack_run _ _ _ _ _ _ _ Hidx Ha Hinfo).
    rewrite (IH (pre ++ [m]) mgrest (mgpre ++ [a])).
    + done.
    + by rewrite <- app_assoc.
    + by rewrite <- app_assoc.
    + rewrite !length_app. simpl. lia.
    + lia.
Qed.

Lemma writeBackStep_other c am k :
  media (base am.1) ≠ k → writeBackStep c am !! k = c !! k.
Proof.
  intros Hne. unfold writeBackStep.
  destruct (truthy_str _); [done|].
  destruct (message_field _ _); [|done].
  by apply store_lookup_other.
Qed.

Lemma writeBackStep_keeps c am k v :
  c !! k = Some v → writeBackStep c am !! k = Some v.
Proof.
  intros Hk. unfold writeBackStep.
  destruct (truthy_str _); [done|].
  destruct (message_field _ _); [|done].
  by apply store_keeps.
Qed.

Lemma fold_writeBackStep_other (l : list (InputSupportedMedia * IMessage)) c k :
  (∀ am, am ∈ l → media (base am.1) ≠ k) →
  fold_left writeBackStep l c !! k = c !! k.
Proof.
  revert c. induction l as [|am l IH]; intros c Hl; simpl; [done|].
  rewrite IH.
  - apply writeBackStep_other, Hl. by left.
  - intros am' Ham'. apply Hl. by right.
Qed.

Lemma fold_writeBackStep_keeps (l : list (InputSupportedMedia * IMessage)) c k v :
  c !! k = Some v → fold_left writeBackStep l c !! k = Some v.
Proof.
  revert c. induction l as [|am l IH]; intros c Hk; simpl; [done|].
  by apply IH, writeBackStep_keeps.
Qed.

Lemma positionalWriteBack_lookup c mediaGroup sentMessages i a m info :
  mediaGroup !! i = Some a →
  sentMessages !! i = Some m →
  message_field m (type (base a)) = Some info →
  c !! media (base a) = None →
  (∀ j b, j < i → mediaGroup !! j = Some b → media (base b) ≠ media (base a)) →
  positionalWriteBack c mediaGroup sentMessages !! media (base a)
  = Some (file_id info).
Proof.
  intros Ha Hm Hinfo Hc Hearlier. unfold positionalWriteBack.
  assert (Hz : zip mediaGroup sentMessages !! i = Some (a, m)).
  { apply lookup_zip_with_Some. eauto. }
  rewrite <- (take_drop_middle _ _ _ Hz).
  rewrite fold_left_app. simpl.
  apply fold_writeBackStep_keeps.
  set (c1 := fold_left writeBackStep (take i (zip mediaGroup sentMessages)) c).
  assert (Hc1 : c1 !! media (base a) = None).
  { unfold c1. rewrite fold_writeBackStep_other; [done|].
    intros [b m'] Hin. simpl.
    apply list_elem_of_lookup in Hin as [j Hj].
    apply lookup_take_Some in Hj as [Hj Hlt].
    apply lookup_zip_with_Some in Hj as (b' & m'' & Heq & Hb & _).
    simplify_eq. by apply (Hearlier j). }
  unfold writeBackStep. simpl. rewrite Hc1, Hinfo. simpl.
  rewrite store_absent by done. apply lookup_insert_eq.
Qed.

(** C2: when [sendMediaGroup] succeeds with a list of messages (distinct
    objects, as a parsed response holds them), one per item, each carrying
    the media of its item's kind, the cache afterwards is the positional
    write-back of the list: for every position, an item whose key was held
    neither by the cache nor by an earlier item of the group resolves to the
    identifier of the message at the same position. *)
Theorem group_write_back_is_positional axios_post api chatId mediaGroup
    moreOptions w sentMessages :
  truthy_str (token api) = true →
  resolves_with axios_post (RMessages sentMessages) →
  NoDup (oid <$> sentMessages) →
  length sentMessages = length mediaGroup →
  (∀ i a m, mediaGroup !! i = Some a → sentMessages !! i = Some m →
            is_Some (message_field m (type (base a)))) →
  result_of (sendMediaGroup axios_post api chatId mediaGroup moreOptions w)
  = Return (RMessages sentMessages)
  ∧ cache (world_of (sendMediaGroup axios_post api chatId mediaGroup moreOptions w))
    = positionalWriteBack (cache w) mediaGroup sentMessages
  ∧ ∀ i a m info,
      mediaGroup !! i = Some a →
      sentMessages !! i = Some m →
      message_field m (type (base a)) = Some info →
      cache w !! media (base a) = None →
      (∀ j b, j < i → mediaGroup !! j = Some b →
              media (base b) ≠ media (base a)) →
      MediaCache.getMediaFileId
        (cache (world_of
                  (sendMediaGroup axios_post api chatId mediaGroup moreOptions w)))
        (media (base a))
      = Some (file_id info).
Proof.
  intros Htok Hres Hnd Hlen Hfields.
  assert (Hrun : sendMediaGroup axios_post api chatId mediaGroup moreOptions w
                 = (Return (RMessages sentMessages),
                    {| cache := positionalWriteBack (cache w) mediaGroup
                                  sentMessages;
                       posted := posted w ++
                         [request_of api "sendMediaGroup"
                            (PForm (mediaGroupFormData (cache w) chatId
                                      mediaGroup moreOptions))] |})).
  { unfold sendMediaGroup, bind at 1 2, getCache.
    rewrite callApi_with_token by done. rewrite Hres. unfold bind.
    rewrite (forEach_writeBack mediaGroup sentMessages Hnd Hfields
               sentMessages [] mediaGroup []); try done. }
  rewrite Hrun. split_and!; [done|done|].
  intros i a m info Ha Hm Hinfo Hc Hearlier.
  by apply (positionalWriteBack_lookup _ _ _ i a m info).
Qed.

Lemma sample_sent_NoDup : NoDup (oid <$> sample_sent).
Proof. apply (bool_decide_unpack _). vm_compute. exact I. Qed.

Lemma sample_sent_fields i a m :
  sample_group !! i = Some a → sample_sent !! i = Some m →
  is_Some (message_field m (type (base a))).
Proof.
  destruct i as [|[|[|i]]]; simpl; intros Ha Hm; try discriminate;
    injection Ha as <-; injection Hm as <-; vm_compute; eauto.
Qed.

Lemma group_write_back_is_positional_witness :
  MediaCache.getMediaFileId
    (cache (world_of (sendMediaGroup group_transport sample_api (JNum 7)
                        sample_group [] sample_world)))
    "c.mp4"
  = Some "M2".
Proof.
  destruct (group_write_back_is_positional group_transport sample_api (JNum 7)
              sample_group [] sample_world sample_sent)
    as (_ & _ & Hlookup).
  - reflexivity.
  - intros rq. reflexivity.
  - exact sample_sent_NoDup.
  - reflexivity.
  - exact sample_sent_fields.
  - apply (Hlookup 2%nat (sample_item video "c.mp4" None)
             (sample_message 12 "M2") {| file_id := "M2" |}).
    + reflexivity.
    + reflexivity.
    + reflexivity.
    + vm_compute. reflexivity.
    + intros j b Hj Hb.
      destruct j as [|[|j]]; simpl in Hb; simplify_eq; [done|done|lia].
Defined.

Example group_write_back_example :
  map_to_list
    (cache (world_of (sendMediaGroup group_transport sample_api (JNum 7)
                        sample_group [] sample_world)))
  = [("c.mp4", "M2"); ("a.jpg", "M0"); ("b.jpg", "FILE_B")].
Proof. vm_compute. reflexivity. Qed.

(** The pairing goes through [indexOf]: were the same message object to
    occur twice in the list, its second occurrence would be paired with the
    item of the first one, and the second item would stay unresolved. *)
Example group_write_back_same_object_twice :
  let twice := [sample_message 10 "M0"; sample_message 10 "M0"] in
  let r := sendMediaGroup (fun _ => Resolved (RMessages twice)) sample_api
             (JNum 7)
             [sample_item photo "a.jpg" None; sample_item photo "d.jpg" None]
             [] sample_world in
  cache (world_of r) !! "a.jpg" = Some "M0"
  ∧ cache (world_of r) !! "d.jpg" = None.
Proof. vm_compute. split; reflexivity. Qed.

(** ** Names of the attached parts *)

Lemma append_cons a s t : String a s +:+ t = String a (s +:+ t).
Proof. reflexivity. Qed.

Lemma digits_only_app s t :
  digits_only (s +:+ t) = digits_only s && digits_only t.
Proof.
  induction s as [|a s IH]; [done|].
  rewrite append_cons. simpl. rewrite IH. by rewrite andb_assoc.
Qed.

Lemma length_append s t :
  String.length (s +:+ t) = (String.length s + String.length t)%nat.
Proof.
  induction s as [|a s IH]; [done|]. rewrite append_cons. simpl. by rewrite IH.
Qed.

Lemma append_inj_r s1 s2 t : s1 +:+ t = s2 +:+ t → s1 = s2.
Proof.
  intros Heq.
  assert (Hlen : String.length s1 = String.length s2).
  { apply (f_equal String.length) in Heq. rewrite !length_append in Heq. lia. }
  revert s2 Heq Hlen. induction s1 as [|a s1 IH]; intros [|b s2] Heq Hlen;
    try done.
  rewrite !append_cons in Heq. simpl in Hlen.
  injection Heq as -> Heq. f_equal. apply IH; [done|lia].
Qed.

Lemma pretty_N_char_digit x : is_digit (pretty_N_char x) = true.
Proof.
  destruct x as [|p]; [done|].
  do 4 (try destruct p as [p|p|]; try done).
Qed.

Lemma pretty_N_go_digits x s :
  digits_only s = true → digits_only (pretty_N_go x s) = true.
Proof.
  revert s. induction (N.lt_wf_0 x) as [x _ IH]; intros s Hs.
  destruct (decide (0 < x)%N) as [Hx|Hx].
  - rewrite pretty_N_go_step by done. apply IH.
    + by apply N.div_lt.
    + simpl. by rewrite pretty_N_char_digit.
  - assert (x = 0%N) as -> by lia. by rewrite pretty_N_go_0.
Qed.

Lemma pretty_nat_digits (n : nat) : digits_only (pretty n) = true.
Proof.
  unfold pretty, pretty_nat, pretty, pretty_N.
  destruct (decide _); [done|]. by apply pretty_N_go_digits.
Qed.

Lemma pretty_ne_thumb (i j : nat) : pretty i ≠ pretty j +:+ "_thumb".
Proof.
  intros Heq. pose proof (pretty_nat_digits i) as Hd.
  rewrite Heq, digits_only_app in Hd. simpl in Hd.
  by rewrite andb_false_r in Hd.
Qed.

Lemma pretty_thumb_inj (i j : nat) :
  pretty i +:+ "_thumb" = pretty j +:+ "_thumb" → i = j.
Proof. intros Heq%append_inj_r. by apply (inj pretty). Qed.

(** ** The form of a media group *)

Lemma attachMedia_app c (fd : FormData) index m :
  attachMedia c fd index m = fd ++ attachMedia c [] index m.
Proof.
  unfold attachMedia.
  destruct (negb (truthy_str (MediaCache.getMediaFileId c (media (base m)))));
    destruct (thumb m) as [t|];
    try destruct (negb (truthy_str (MediaCache.getMediaFileId c (media t))));
    rewrite ?appendMediaToFormData_app, ?app_nil_r, ?app_nil_l, <- ?app_assoc;
    done.
Qed.

Lemma fold_attachMedia c (l : list (nat * InputSupportedMedia)) (fd : FormData) :
  fold_left (fun fd im => attachMedia c fd im.1 im.2) l fd
  = fd ++ mjoin ((fun im => attachMedia c [] im.1 im.2) <$> l).
Proof.
  revert fd. induction l as [|im l IH]; intros fd; csimpl.
  - by rewrite app_nil_r.
  - rewrite IH, (attachMedia_app c fd). by rewrite <- app_assoc.
Qed.

Lemma mediaGroupFormData_parts c chatId mediaGroup moreOptions :
  mediaGroupFormData c chatId mediaGroup moreOptions
  = buildAttachFormData (groupConfig c chatId mediaGroup moreOptions)
      ++ groupAttachments c mediaGroup.
Proof.
  unfold mediaGroupFormData, groupAttachments, groupConfig.
  rewrite fold_attachMedia. f_equal. by rewrite fold_attachMedia.
Qed.

Lemma groupAttachments_elem c mediaGroup kv :
  kv ∈ groupAttachments c mediaGroup
  ↔ ∃ j m, mediaGroup !! j = Some m ∧ kv ∈ attachMedia c [] j m.
Proof.
  unfold groupAttachments. rewrite fold_attachMedia, app_nil_l.
  rewrite list_elem_of_join. split.
  - intros (parts & Hkv & Hparts).
    apply list_elem_of_fmap in Hparts as ([j m] & -> & Him).
    apply elem_of_lookup_imap in Him as (j' & m' & Heq & Hm').
    simplify_eq. eauto.
  - intros (j & m & Hm & Hkv). exists (attachMedia c [] j m). split; [done|].
    apply list_elem_of_fmap. exists (j, m). split; [done|].
    apply elem_of_lookup_imap. eauto.
Qed.

(** The parts appended for one item, case by case. *)
Lemma attachMedia_nil c index m :
  attachMedia c [] index m
  = (if truthy_str (c !! media (base m)) then []
     else [(pretty index, binaryPart (base m))])
    ++ match thumb m with
       | Some t =>
           if truthy_str (c !! media t) then []
           else [(pretty index +:+ "_thumb", binaryPart t)]
       | None => []
       end.
Proof.
  unfold attachMedia, MediaCache.getMediaFileId, binaryPart.
  destruct (truthy_str (c !! media (base m))); cbn [negb];
    destruct (thumb m) as [t|];
    try destruct (truthy_str (c !! media t)); cbn [negb];
    rewrite ?appendMediaToFormData_app; by rewrite ?app_nil_r.
Qed.

Lemma attachMedia_elem c index m kv :
  kv ∈ attachMedia c [] index m ↔
    (truthy_str (c !! media (base m)) = false
     ∧ kv = (pretty index, binaryPart (base m)))
    ∨ (∃ t, thumb m = Some t ∧ truthy_str (c !! media t) = false
            ∧ kv = (pretty index +:+ "_thumb", binaryPart t)).
Proof.
  rewrite attachMedia_nil, elem_of_app. split.
  - intros [Hin|Hin].
    + left. destruct (truthy_str (c !! media (base m)));
        [by apply elem_of_nil in Hin|].
      by apply list_elem_of_singleton in Hin.
    + right. destruct (thumb m) as [t|]; [|by apply elem_of_nil in Hin].
      exists t. destruct (truthy_str (c !! media t));
        [by apply elem_of_nil in Hin|].
      by apply list_elem_of_singleton in Hin.
  - intros [[Hc ->]|(t & Ht & Hc & ->)].
    + left. rewrite Hc. by apply list_elem_of_singleton.
    + right. rewrite Ht, Hc. by apply list_elem_of_singleton.
Qed.

Lemma cached_or_attach_hit c path placeholder fid :
  c !! path = Some fid → fid ≠ "" → cached_or_attach c path placeholder = fid.
Proof.
  intros Hc Hfid. unfold cached_or_attach, MediaCache.getMediaFileId.
  rewrite Hc. by rewrite truthy_str_Some.
Qed.

Lemma cached_or_attach_miss c path placeholder :
  truthy_str (c !! path) = false →
  cached_or_attach c path placeholder = placeholder.
Proof.
  intros Hc. unfold cached_or_attach, MediaCache.getMediaFileId. by rewrite Hc.
Qed.

Lemma inputMedia_props c index m :
  reserved_free m →
  ∃ d, inputMedia c index m = JObj d
       ∧ js_get d "media"
         = JStr (cached_or_attach c (media (base m))
                   ("attach://" +:+ pretty index))
       ∧ js_get d "thumb"
         = match thumb m with
           | Some t =>
               JStr (cached_or_attach c (media t)
                       ("attach://" +:+ pretty index +:+ "_thumb"))
           | None => JUndefined
           end.
Proof.
  intros Hfree.
  destruct (Hfree "media") as [Hm_res Hm_opt]; [by left|].
  destruct (Hfree "thumb") as [Ht_res Ht_opt]; [right; by left|].
  assert (Hnone : ∀ k, k ∉ js_keys ([] : JsObject))
    by (intros k Hk; by apply elem_of_nil in Hk).
  assert (Hthumb : "media" ∉ js_keys
            (match thumb m with
             | Some t =>
                 [("thumb",
                   JStr (cached_or_attach c (media t)
                           ("attach://" +:+ pretty index +:+ "_thumb")))]
             | None => []
             end)).
  { destruct (thumb m); [|apply Hnone].
    intros Hk. by apply list_elem_of_singleton in Hk. }
  eexists. split; [reflexivity|]. split.
  - rewrite js_get_spread_absent by done.
    rewrite js_get_spread_absent by (destruct (isVideo m); [done|apply Hnone]).
    by rewrite js_get_spread_absent.
  - rewrite js_get_spread_absent by done.
    rewrite js_get_spread_absent by (destruct (isVideo m); [done|apply Hnone]).
    by destruct (thumb m).
Qed.

Lemma buildAttachFormData_intro (config : JsObject) k :
  truthy (js_get config k) = true →
  (k, form_field_value (js_get config k)) ∈ buildAttachFormData config.
Proof.
  intros Htruthy.
  assert (Hk : k ∈ js_keys config).
  { destruct (decide (k ∈ js_keys config)) as [|Hk]; [done|].
    rewrite (js_get_absent _ _ Hk) in Htruthy. done. }
  rewrite buildAttachFormData_fields. apply list_elem_of_join.
  exists (configField config k). split.
  - unfold configField. rewrite Htruthy. by apply list_elem_of_singleton.
  - by apply list_elem_of_fmap_2.
Qed.

Lemma groupAttachments_name c mediaGroup k :
  k ∈ form_names (groupAttachments c mediaGroup) →
  ∃ j m, mediaGroup !! j = Some m
         ∧ ((truthy_str (c !! media (base m)) = false ∧ k = pretty j)
            ∨ (∃ t, thumb m = Some t ∧ truthy_str (c !! media t) = false
                    ∧ k = pretty j +:+ "_thumb")).
Proof.
  unfold form_names. intros Hin.
  apply list_elem_of_fmap in Hin as ([k' v] & -> & Hin).
  apply groupAttachments_elem in Hin as (j & m & Hm & Hin).
  exists j, m. split; [done|].
  apply attachMedia_elem in Hin as [[Hc Heq]|(t & Ht & Hc & Heq)];
    simplify_eq; simpl; eauto.
Qed.

(** C1 (amended): in the form that [sendMediaGroup] builds, the [media]
    field is the JSON text of the array of descriptors, one per item in
    input order, unless [moreOptions] defines [media] itself. For the item at
    position [i], when its options and resolution do not redefine [media] or
    [thumb]: if the lookup of its key gives no identifier, or the empty one,
    the descriptor refers to [attach://i] and its stream or buffer is a part
    named [i]; if the lookup gives a non-empty identifier, the descriptor
    holds that identifier and no part is named [i]; and likewise for its
    thumbnail, with [attach://i_thumb] and the part name [i_thumb]. *)
Theorem media_group_form c chatId mediaGroup moreOptions i item :
  mediaGroup !! i = Some item →
  reserved_free item →
  mediaGroupFormData c chatId mediaGroup moreOptions
  = buildAttachFormData (groupConfig c chatId mediaGroup moreOptions)
      ++ groupAttachments c mediaGroup
  ∧ ("media" ∉ js_keys moreOptions →
     ("media", FString (JSON_stringify (JArr (imap (inputMedia c) mediaGroup))))
     ∈ mediaGroupFormData c chatId mediaGroup moreOptions)
  ∧ ∃ d,
      imap (inputMedia c) mediaGroup !! i = Some (JObj d)
      ∧ (truthy_str (MediaCache.getMediaFileId c (media (base item))) = false →
         js_get d "media" = JStr ("attach://" +:+ pretty i)
         ∧ (pretty i, binaryPart (base item)) ∈ groupAttachments c mediaGroup)
      ∧ (∀ fid,
           MediaCache.getMediaFileId c (media (base item)) = Some fid →
           fid ≠ "" →
           js_get d "media" = JStr fid
           ∧ pretty i ∉ form_names (groupAttachments c mediaGroup))
      ∧ (∀ t, thumb item = Some t →
              truthy_str (MediaCache.getMediaFileId c (media t)) = false →
              js_get d "thumb" = JStr ("attach://" +:+ pretty i +:+ "_thumb")
              ∧ (pretty i +:+ "_thumb", binaryPart t)
                ∈ groupAttachments c mediaGroup)
      ∧ (∀ t fid, thumb item = Some t →
                  MediaCache.getMediaFileId c (media t) = Some fid →
                  fid ≠ "" →
                  js_get d "thumb" = JStr fid
                  ∧ (pretty i +:+ "_thumb")
                    ∉ form_names (groupAttachments c mediaGroup)).
Proof.
  unfold MediaCache.getMediaFileId.
  intros Hitem Hfree. split; [apply mediaGroupFormData_parts|]. split.
  { intros Hopts. rewrite mediaGroupFormData_parts. apply elem_of_app. left.
    assert (Hget : js_get (groupConfig c chatId mediaGroup moreOptions) "media"
                   = JArr (imap (inputMedia c) mediaGroup)).
    { unfold groupConfig. by rewrite js_get_spread_absent. }
    pose proof (buildAttachFormData_intro
                  (groupConfig c chatId mediaGroup moreOptions) "media") as Hin.
    rewrite Hget in Hin. by apply Hin. }
  destruct (inputMedia_props c i item Hfree) as (d & Hd & Hmedia & Hthumb).
  exists d. split_and!.
  - by rewrite list_lookup_imap, Hitem, <- Hd.
  - intros Hmiss. rewrite Hmedia.
    rewrite cached_or_attach_miss by done.
    split; [done|]. apply groupAttachments_elem. exists i, item.
    split; [done|]. apply attachMedia_elem. by left.
  - intros fid Hfid Hne.
    assert (Hhit : truthy_str (c !! media (base item)) = true).
    { rewrite Hfid. by apply truthy_str_Some. }
    rewrite Hmedia. rewrite (cached_or_attach_hit _ _ _ fid) by done.
    split; [done|].
    intros (j & m & Hm & [[Hc Heq]|(t & _ & _ & Heq)])%groupAttachments_name.
    + apply (inj pretty) in Heq as <-. simplify_eq. congruence.
    + by apply pretty_ne_thumb in Heq.
  - intros t Ht Hmiss. rewrite Hthumb, Ht.
    rewrite cached_or_attach_miss by done.
    split; [done|]. apply groupAttachments_elem. exists i, item.
    split; [done|]. apply attachMedia_elem. right. exists t. done.
  - intros t fid Ht Hfid Hne.
    assert (Hhit : truthy_str (c !! media t) = true).
    { rewrite Hfid. by apply truthy_str_Some. }
    rewrite Hthumb, Ht. rewrite (cached_or_attach_hit _ _ _ fid) by done.
    split; [done|].
    intros (j & m & Hm & [[_ Heq]|(t' & Ht' & Hc & Heq)])%groupAttachments_name.
    + symmetry in Heq. by apply pretty_ne_thumb in Heq.
    + apply pretty_thumb_inj in Heq as <-. simplify_eq. congruence.
Qed.

Lemma sample_item_reserved_free t path th :
  reserved_free (sample_item t path th).
Proof.
  intros k _. simpl. split; intros Hk; by apply elem_of_nil in Hk.
Qed.

Lemma media_group_form_witness :
  ∃ d,
    imap (inputMedia sample_cache) sample_group !! 0%nat = Some (JObj d)
    ∧ js_get d "media" = JStr ("attach://" +:+ pretty 0%nat)
    ∧ (pretty 0%nat, binaryPart (sample_media photo "a.jpg"))
      ∈ groupAttachments sample_cache sample_group.
Proof.
  destruct (media_group_form sample_cache (JNum 7) sample_group [] 0%nat
              (sample_item photo "a.jpg" None))
    as (_ & _ & d & Hd & Hmiss & _).
  - reflexivity.
  - apply sample_item_reserved_free.
  - exists d. split; [exact Hd|]. apply Hmiss. vm_compute. reflexivity.
Defined.

(** The claim as it was stated fails in three ways, each by the design of
    the code: per-item options are spread last and can replace the reference
    of the descriptor, while the part of the item is attached all the same;
    a key held with the empty identifier is treated as a miss; and a [media]
    field in [moreOptions] replaces the whole array of descriptors. *)
Lemma media_group_form_counterexample :
  (MediaCache.has no_cache "a.jpg" = false
   ∧ imap (inputMedia no_cache) [forced_item]
     = [JObj [("type", JStr "photo"); ("media", JStr "forced")]]
   ∧ groupAttachments no_cache [forced_item] = [("0", FStream "a.jpg")])
  ∧ (MediaCache.has empty_id_cache "a.jpg" = true
     ∧ imap (inputMedia empty_id_cache) [sample_item photo "a.jpg" None]
       = [JObj [("type", JStr "photo"); ("media", JStr "attach://0")]]
     ∧ groupAttachments empty_id_cache [sample_item photo "a.jpg" None]
       = [("0", FStream "a.jpg")])
  ∧ mediaGroupFormData no_cache (JNum 7) [sample_item photo "a.jpg" None]
      [("media", JStr "mine")]
    = [("chat_id", FNumber 7); ("media", FString "mine");
       ("0", FStream "a.jpg")].
Proof. vm_compute. split_and!; reflexivity. Qed.

(** A batch of three items: the first and the last are not cached, the
    second is. *)
Example media_group_form_example :
  mediaGroupFormData sample_cache (JNum 7) sample_group []
  = [("chat_id", FNumber 7);
     ("media",
      FString
        (JSON_stringify
           (JArr [JObj [("type", JStr "photo"); ("media", JStr "attach://0")];
                  JObj [("type", JStr "photo"); ("media", JStr "FILE_B")];
                  JObj [("type", JStr "video"); ("media", JStr "attach://2")]])));
     ("0", FStream "a.jpg");
     ("2", FStream "c.mp4")].
Proof. vm_compute. reflexivity. Qed.

Example media_group_thumb_example :
  let cover := {| type := photo; passType := "buffer"; media := "cover" |} in
  mediaGroupFormData sample_cache (JStr "@channel")
    [sample_item video "c.mp4" (Some cover);
     sample_item video "d.mp4" (Some (sample_media photo "b.jpg"))] []
  = [("chat_id", FString "@channel");
     ("media",
      FString
        (JSON_stringify
           (JArr [JObj [("type", JStr "video"); ("media", JStr "attach://0");
                        ("thumb", JStr "attach://0_thumb")];
                  JObj [("type", JStr "video"); ("media", JStr "attach://1");
                        ("thumb", JStr "FILE_B")]])));
     ("0", FStream "c.mp4");
     ("0_thumb", FBuffer "cover");
     ("1", FStream "d.mp4")].
Proof. vm_compute. reflexivity. Qed.

(** ** The thumbnail field of a single-item form *)

(** Whenever the configuration carries a thumbnail, the form has a [thumb]
    field from the resolve-or-attach step, and a further [thumb] field from
    the configuration loop, holding the JSON text of the thumbnail object. *)
Lemma buildFormData_thumb_twice c fromMediaKey m (config : JsObject) t :
  js_get config "thumb" = JMedia t →
  buildFormData c fromMediaKey m config !! 1%nat
  = Some ("thumb", mediaValue (cached_or c t))
  ∧ ∃ n, buildFormData c fromMediaKey m config !! (2 + n)%nat
         = Some ("thumb", FString (JSON_stringify (JMedia t))).
Proof.
  intros Ht. rewrite buildFormData_parts. unfold thumbFields. rewrite Ht.
  split; [done|].
  pose proof (buildAttachFormData_intro config "thumb") as Hin.
  rewrite Ht in Hin. specialize (Hin eq_refl).
  apply list_elem_of_lookup in Hin as [n Hn]. exists n. done.
Qed.

(** C5: the form that [sendVideo] posts for a video with a thumbnail holds
    two fields named [thumb]: the resolved thumbnail, and after the scalar
    fields the JSON text of the thumbnail object, appended by the
    configuration loop. *)
Theorem sendVideo_appends_thumb_twice :
  let cover := sample_media photo "cover.jpg" in
  let clip := {| base := sample_media video "clip.mp4"; thumb := Some cover;
                 isVideo := true; resolution := []; options := [] |} in
  body <$> posted (world_of (sendVideo answering_transport sample_api (JNum 7)
                               clip None [] sample_world))
  = [PForm [("video", FStream "clip.mp4");
            ("thumb", FStream "cover.jpg");
            ("chat_id", FNumber 7);
            ("parse_mode", FString "HTML");
            ("thumb", FString (JSON_stringify (JMedia cover)))]].
Proof. vm_compute. reflexivity. Qed.

(** ** Well-formedness of the cache *)

Lemma store_wf (c : gmap string string) path fileId :
  wf_cache c → fileId ≠ "" →
  wf_cache (MediaCache.saveMediaFileId c path fileId).
Proof.
  intros Hwf Hid k v. unfold MediaCache.saveMediaFileId.
  destruct (c !! path) eqn:E; [apply Hwf|].
  intros [[_ <-]|[_ Hk]]%lookup_insert_Some; [done|]. by apply (Hwf k).
Qed.

Lemma saveMediaFileId_wf path mediaKey message w :
  wf_cache (cache w) →
  (∀ info, mediaFileInfo_of message mediaKey = Some info → file_id info ≠ "") →
  wf_cache (cache (world_of (saveMediaFileId path mediaKey message w))).
Proof.
  intros Hwf Hid. rewrite saveMediaFileId_unfold.
  destruct (truthy_str (cache w !! path)); [done|].
  destruct (mediaFileInfo_of message mediaKey) as [info|] eqn:E; [|done].
  unfold world_of. simpl. apply store_wf; eauto.
Qed.

(** * Further properties of the Api class *)

(** ** Objects, continued *)

Lemma js_keys_set_elem (o : JsObject) k v k' :
  k' ∈ js_keys (js_set o k v) ↔ k' ∈ js_keys o ∨ k' = k.
Proof.
  unfold js_keys. induction o as [|[k0 v0] o IH]; csimpl.
  - rewrite list_elem_of_singleton. split; [by right|].
    intros [Hin| ->]; [by apply elem_of_nil in Hin|done].
  - destruct (String.eqb k0 k) eqn:E; csimpl.
    + apply String.eqb_eq in E as ->. rewrite elem_of_cons. split; [by left|].
      intros [?| ->]; [done|by left].
    + rewrite !elem_of_cons, IH. tauto.
Qed.

Lemma js_keys_spread_elem (src o : JsObject) k :
  k ∈ js_keys (js_spread o src) ↔ k ∈ js_keys o ∨ k ∈ js_keys src.
Proof.
  unfold js_spread. revert o.
  induction src as [|[k0 v0] src IH]; intros o; simpl.
  - split; [by left|]. intros [?|Hin]; [done|]. by apply elem_of_nil in Hin.
  - rewrite IH, js_keys_set_elem. unfold js_keys at 4. csimpl.
    rewrite elem_of_cons. unfold js_keys. tauto.
Qed.

Lemma js_keys_set_NoDup (o : JsObject) k v :
  NoDup (js_keys o) → NoDup (js_keys (js_set o k v)).
Proof.
  unfold js_keys. induction o as [|[k0 v0] o IH]; csimpl; intros Hnd.
  - apply NoDup_singleton.
  - apply NoDup_cons in Hnd as [Hk0 Hnd].
    destruct (String.eqb k0 k) eqn:E; csimpl.
    + by apply NoDup_cons.
    + apply NoDup_cons. split; [|by apply IH].
      intros [Hin| ->]%js_keys_set_elem; [done|].
      by rewrite String.eqb_refl in E.
Qed.

Lemma js_keys_spread_NoDup (src o : JsObject) :
  NoDup (js_keys o) → NoDup (js_keys (js_spread o src)).
Proof.
  unfold js_spread. revert o.
  induction src as [|[k0 v0] src IH]; intros o Hnd; simpl; [done|].
  by apply IH, js_keys_set_NoDup.
Qed.

Lemma js_get_cons_ne (o : JsObject) k0 v0 k :
  k0 ≠ k → js_get ((k0, v0) :: o) k = js_get o k.
Proof. intros Hne. simpl. by apply String.eqb_neq in Hne as ->. Qed.

Lemma js_get_spread_present (src o : JsObject) k :
  NoDup (js_keys src) → k ∈ js_keys src →
  js_get (js_spread o src) k = js_get src k.
Proof.
  unfold js_spread, js_keys. revert o.
  induction src as [|[k0 v0] src IH]; intros o Hnd Hk; csimpl in *.
  - by apply elem_of_nil in Hk.
  - apply NoDup_cons in Hnd as [Hk0 Hnd].
    destruct (decide (k0 = k)) as [->|Hne].
    + rewrite String.eqb_refl.
      fold (js_spread (js_set o k v0) src).
      rewrite js_get_spread_absent by done. apply js_get_set_eq.
    + apply String.eqb_neq in Hne as Hneb. rewrite Hneb.
      apply IH; [done|]. apply elem_of_cons in Hk as [?|?]; [congruence|done].
Qed.

(** ** Errors of a call *)

(** X1: when the transport rejects the request of a call made with a
    token, [callApi] throws the error built from the description sent by the
    remote side, or from the transport error itself when the description is
    missing or empty; the request was posted once, to the URL made of the
    token and the method, and the cache is as before. *)
Theorem callApi_wraps_rejection axios_post api method config w tok description e :
  token api = Some tok → tok ≠ "" →
  axios_post (request_of api method config) = Rejected description e →
  callApi axios_post api method config w
  = (Throw (NestgramError
              (".callApi error: " +:+
               match description with
               | Some d => if String.eqb d "" then e else d
               | None => e
               end)),
     {| cache := cache w;
        posted := posted w ++
          [{| url := "https://api.telegram.org/bot" +:+ tok +:+ "/" +:+ method;
              body := config; headers := None |}] |}).
Proof.
  intros Htok Hne Hrej. rewrite callApi_with_token.
  - rewrite Hrej. unfold request_of. rewrite Htok. simpl.
    destruct description as [d|]; simpl; [|done].
    by destruct (String.eqb d "").
  - rewrite Htok. by apply truthy_str_Some.
Qed.

Lemma callApi_wraps_rejection_witness :
  callApi (fun _ => Rejected (Some "") "timeout of 1000ms exceeded") sample_api
    "getMe" (PJson JUndefined) sample_world
  = (Throw (NestgramError (".callApi error: " +:+ "timeout of 1000ms exceeded")),
     {| cache := cache sample_world;
        posted := posted sample_world ++
          [{| url := "https://api.telegram.org/bot" +:+ "123:ABC" +:+ "/"
                     +:+ "getMe";
              body := PJson JUndefined; headers := None |}] |}).
Proof.
  apply (callApi_wraps_rejection
           (fun _ => Rejected (Some "") "timeout of 1000ms exceeded")
           sample_api "getMe" (PJson JUndefined) sample_world "123:ABC"
           (Some "") "timeout of 1000ms exceeded").
  - reflexivity.
  - discriminate.
  - reflexivity.
Defined.

(** ** Errors of the write-back *)

(** X2: the write-back looks into the message only when the key is not
    cached. With a cached key it returns the message as it is, whatever its
    shape; with a key that is not cached and a message without the media of
    the kind asked for (or with an empty list of photo sizes) it raises a
    [TypeError] and stores nothing. *)
Theorem saveMediaFileId_inspects_only_on_miss path mediaKey message w :
  (truthy_str (cache w !! path) = true →
   saveMediaFileId path mediaKey message w = (Return message, w))
  ∧ (truthy_str (cache w !! path) = false →
     mediaFileInfo_of message mediaKey = None →
     saveMediaFileId path mediaKey message w = (Throw TypeError, w))
  ∧ (∀ m, m_photo m = Some [] → mediaFileInfo_of (RMessage m) photo = None).
Proof.
  split_and!.
  - intros Hc. by rewrite saveMediaFileId_unfold, Hc.
  - intros Hc Hnone. by rewrite saveMediaFileId_unfold, Hc, Hnone.
  - intros m Hm. simpl. by rewrite Hm.
Qed.

Lemma saveMediaFileId_inspects_only_on_miss_witness :
  saveMediaFileId "b.jpg" video (ROther JNull) sample_world
  = (Return (ROther JNull), sample_world)
  ∧ saveMediaFileId "a.jpg" video (ROther JNull) sample_world
    = (Throw TypeError, sample_world).
Proof.
  destruct (saveMediaFileId_inspects_only_on_miss "b.jpg" video (ROther JNull)
              sample_world) as (Hhit & _ & _).
  destruct (saveMediaFileId_inspects_only_on_miss "a.jpg" video (ROther JNull)
              sample_world) as (_ & Hmiss & _).
  split; [apply Hhit | apply Hmiss]; reflexivity.
Defined.

(** ** The configuration loop, in full *)

(** X3: the fields that the configuration loop appends are the truthy
    fields of the configuration, in the order of its keys, each with its
    value as a plain value or, for an object, as its JSON text; none of them
    is a stream or a buffer. *)
Theorem buildAttachFormData_in_key_order (config : JsObject) :
  buildAttachFormData config
  = (fun key => (key, form_field_value (js_get config key)))
      <$> List.filter (fun key => truthy (js_get config key)) (js_keys config)
  ∧ Forall (fun field => is_binary field.2 = false)
           (buildAttachFormData config)
  ∧ ∀ key, truthy (js_get config key) = true →
           typeof_object (js_get config key) = true →
           (key, FString (JSON_stringify (js_get config key)))
           ∈ buildAttachFormData config.
Proof.
  split_and!.
  - rewrite buildAttachFormData_fields.
    induction (js_keys config) as [|k keys IH]; [done|].
    csimpl. rewrite IH. unfold configField.
    by destruct (truthy (js_get config k)).
  - apply Forall_forall. intros [k v] Hin. simpl.
    by apply (buildAttachFormData_not_binary config k).
  - intros key Htruthy Hobj.
    pose proof (buildAttachFormData_intro config key Htruthy) as Hin.
    unfold form_field_value in Hin. by rewrite Hobj in Hin.
Qed.

Lemma buildAttachFormData_in_key_order_witness :
  ("reply_markup",
   FString (JSON_stringify (JObj [("remove_keyboard", JBool true)])))
  ∈ buildAttachFormData
      [("chat_id", JNum 7); ("reply_markup", JObj [("remove_keyboard", JBool true)])].
Proof.
  destruct (buildAttachFormData_in_key_order
              [("chat_id", JNum 7);
               ("reply_markup", JObj [("remove_keyboard", JBool true)])])
    as (_ & _ & Hobj).
  apply (Hobj "reply_markup"); reflexivity.
Defined.

(** ** What a send can do to the cache *)

Lemma forEach_invariant {A} (body : A → Js unit) (xs : list A)
    (P : World → Prop) w :
  (∀ x w, x ∈ xs → P w → P (world_of (body x w))) →
  P w → P (world_of (forEach body xs w)).
Proof.
  revert w. induction xs as [|x xs IH]; intros w Hbody Hw; simpl; [done|].
  unfold bind. pose proof (Hbody x w (list_elem_of_here _ _) Hw) as Hx.
  destruct (body x w) as [[[]|e] w']; simpl in *; [|done].
  apply IH; [|done]. intros y w0 Hy. apply Hbody. by right.
Qed.

Section CacheInvariant.

Variable axios_post : Request → AxiosOutcome.
Variable P : gmap string string → Prop.
Variable Q : string → Prop.
Hypothesis Hids : transport_ids axios_post Q.

Lemma saveMediaFileId_invariant path mediaKey message w :
  (∀ c fileId, P c → Q fileId → P (MediaCache.saveMediaFileId c path fileId)) →
  (∀ info, mediaFileInfo_of message mediaKey = Some info → Q (file_id info)) →
  P (cache w) →
  P (cache (world_of (saveMediaFileId path mediaKey message w))).
Proof.
  intros Hstep Hq Hw. rewrite saveMediaFileId_unfold.
  destruct (truthy_str (cache w !! path)); [done|].
  destruct (mediaFileInfo_of message mediaKey) as [info|] eqn:E; [|done].
  unfold world_of. simpl. apply Hstep; eauto.
Qed.

Lemma callApi_outcome api method config w :
  (∃ exn, result_of (callApi axios_post api method config w) = Throw exn)
  ∨ (∃ rq r, axios_post rq = Resolved r
             ∧ result_of (callApi axios_post api method config w) = Return r).
Proof.
  destruct (truthy_str (token api)) eqn:Htok.
  - rewrite callApi_with_token by done.
    destruct (axios_post (request_of api method config)) eqn:E; simpl; eauto.
  - rewrite callApi_no_token by done. simpl. eauto.
Qed.

Lemma singleSend_invariant api method form path mediaKey w :
  (∀ c fileId, P c → Q fileId → P (MediaCache.saveMediaFileId c path fileId)) →
  P (cache w) →
  P (cache (world_of (singleSend axios_post api method form path mediaKey w))).
Proof.
  intros Hstep Hw. unfold singleSend, bind, getCache.
  pose proof (callApi_cache axios_post api method (PForm (form (cache w))) w)
    as Hcache.
  destruct (callApi_outcome api method (PForm (form (cache w))) w)
    as [[exn Hexn]|(rq & r & Hrq & Hr)];
    destruct (callApi axios_post api method (PForm (form (cache w))) w)
      as [[result|exn'] w'] eqn:E; simpl in *; simplify_eq;
    try (by rewrite Hcache).
  apply saveMediaFileId_invariant; [done| |by rewrite Hcache].
  intros info Hinfo. destruct r as [m| |]; try done.
  apply (Hids rq (RMessage m) m mediaKey info); [done| |done].
  by apply list_elem_of_singleton.
Qed.

Lemma writeBack_invariant mediaGroup sentMessages m w :
  (∀ c path fileId, path ∈ (fun i => media (base i)) <$> mediaGroup →
                    P c → Q fileId →
                    P (MediaCache.saveMediaFileId c path fileId)) →
  (∀ mediaKey info, message_field m mediaKey = Some info → Q (file_id info)) →
  P (cache w) →
  P (cache (world_of (writeBack mediaGroup sentMessages m w))).
Proof.
  intros Hstep Hq Hw. unfold writeBack.
  destruct (indexOf sentMessages m ≫= (mediaGroup !!.)) as [a|] eqn:E; [|done].
  apply bind_Some in E as (i & _ & Ha).
  unfold bind.
  pose proof (saveMediaFileId_invariant (media (base a)) (type (base a))
                (RMessage m) w) as Hsave.
  destruct (saveMediaFileId (media (base a)) (type (base a)) (RMessage m) w)
    as [[r|e] w'] eqn:Es; simpl in *; apply Hsave; try done.
  all: try (intros c fileId; apply Hstep;
            apply list_elem_of_fmap; exists a; split; [done|];
            by apply list_elem_of_lookup_2 in Ha).
  all: intros info Hinfo; by apply (Hq (type (base a))).
Qed.

Lemma writeBackValue_invariant mediaGroup sentMessages px w :
  (∀ c path fileId, path ∈ (fun i => media (base i)) <$> mediaGroup →
                    P c → Q fileId →
                    P (MediaCache.saveMediaFileId c path fileId)) →
  P (cache w) →
  P (cache (world_of (writeBackValue mediaGroup sentMessages px w))).
Proof.
  intros Hstep Hw. unfold writeBackValue.
  destruct (js_indexOf sentMessages px.1 px.2 ≫= (mediaGroup !!.))
    as [a|] eqn:E; [|done].
  apply bind_Some in E as (i & _ & Ha).
  unfold bind.
  pose proof (saveMediaFileId_invariant (media (base a)) (type (base a))
                (ROther px.2) w) as Hsave.
  destruct (saveMediaFileId (media (base a)) (type (base a)) (ROther px.2) w)
    as [[r|e] w'] eqn:Es; simpl in *; apply Hsave; try done.
  all: intros c fileId; apply Hstep;
       apply list_elem_of_fmap; exists a; split; [done|];
       by apply list_elem_of_lookup_2 in Ha.
Qed.

Lemma sendMediaGroup_invariant api chatId mediaGroup moreOptions w :
  (∀ c path fileId, path ∈ (fun i => media (base i)) <$> mediaGroup →
                    P c → Q fileId →
                    P (MediaCache.saveMediaFileId c path fileId)) →
  P (cache w) →
  P (cache (world_of
              (sendMediaGroup axios_post api chatId mediaGroup moreOptions w))).
Proof.
  intros Hstep Hw. unfold sendMediaGroup, bind at 1 2, getCache.
  set (formData := mediaGroupFormData (cache w) chatId mediaGroup moreOptions).
  pose proof (callApi_cache axios_post api "sendMediaGroup" (PForm formData) w)
    as Hcache.
  destruct (callApi_outcome api "sendMediaGroup" (PForm formData) w)
    as [[exn Hexn]|(rq & r & Hrq & Hr)];
    destruct (callApi axios_post api "sendMediaGroup" (PForm formData) w)
      as [[result|exn'] w'] eqn:E; simpl in *; simplify_eq;
    try (by rewrite Hcache).
  destruct r as [m|ms|v]; try (by simpl; rewrite Hcache).
  - unfold bind.
    pose proof (forEach_invariant (writeBack mediaGroup ms) ms
                  (fun w0 => P (cache w0)) w') as Hloop.
    destruct (forEach (writeBack mediaGroup ms) ms w') as [[[]|e] w''] eqn:El;
      simpl in *; apply Hloop; try (by rewrite Hcache).
    all: intros m w0 Hm Hw0; apply writeBack_invariant; [done| |done].
    all: intros mediaKey info Hinfo;
         by apply (Hids rq (RMessages ms) m mediaKey info).
  - destruct (js_iterate v) as [xs|]; [|by simpl; rewrite Hcache].
    unfold bind.
    pose proof (forEach_invariant (writeBackValue mediaGroup xs) (imap pair xs)
                  (fun w0 => P (cache w0)) w') as Hloop.
    destruct (forEach (writeBackValue mediaGroup xs) (imap pair xs) w')
      as [[[]|e] w''] eqn:El;
      simpl in *; apply Hloop; try (by rewrite Hcache).
    all: intros px w0 _ Hw0; by apply writeBackValue_invariant.
Qed.

Lemma send_invariant api chatId content keyboard moreOptions w :
  (∀ c path fileId, path ∈ send_paths content → P c → Q fileId →
                    P (MediaCache.saveMediaFileId c path fileId)) →
  P (cache w) →
  P (cache (world_of (send axios_post api chatId content keyboard moreOptions w))).
Proof.
  intros Hstep Hw.
  assert (Hcontent : ∀ c opts,
            send_paths content = content_paths c →
            P (cache (world_of (sendContent axios_post api chatId c keyboard
                                  opts w)))).
  { intros c opts Hpaths. rewrite Hpaths in Hstep.
    destruct c as [[i|i|i|i|i|i|i|g|pm]|s| |]; simpl in *;
      try done; try (by rewrite callApi_cache).
    1-7: apply singleSend_invariant; [|done];
         intros c fileId; apply Hstep; by apply list_elem_of_singleton.
    by apply sendMediaGroup_invariant. }
  destruct content as [[c o|t o|t o|la lo o|o]|c]; simpl;
    try done; try (by apply Hcontent); try (by rewrite callApi_cache).
  all: unfold sendLocation; by rewrite callApi_cache.
Qed.

End CacheInvariant.

Lemma transport_ids_True axios_post : transport_ids axios_post (fun _ => True).
Proof. by intros rq r m mediaKey info _ _ _. Qed.

(** X4: whatever is sent and however the call ends (a response of any shape,
    a rejected request, a write-back that raises half-way through a media
    group), [send] and the senders it dispatches to never change or remove
    an entry that the cache already holds. *)
Theorem send_keeps_cached_entries axios_post api chatId content keyboard
    moreOptions w k v :
  cache w !! k = Some v →
  cache (world_of (send axios_post api chatId content keyboard moreOptions w)) !! k
  = Some v.
Proof.
  intros Hk.
  apply (send_invariant axios_post (fun c => c !! k = Some v) (fun _ => True)
           (transport_ids_True axios_post)); [|done].
  intros c path fileId _ Hc _. by apply store_keeps.
Qed.

Lemma send_keeps_cached_entries_witness :
  cache (world_of (send group_transport sample_api (JNum 7)
                     (inr (ContentMedia (MediaGroup sample_group))) None []
                     sample_world)) !! "b.jpg"
  = Some "FILE_B".
Proof.
  apply (send_keeps_cached_entries group_transport sample_api (JNum 7)
           (inr (ContentMedia (MediaGroup sample_group))) None [] sample_world
           "b.jpg" "FILE_B").
  reflexivity.
Defined.

(** X5: a send writes the cache only under the keys of the primary media it
    sends. Every other key reads as before: a text, a location or a creator
    without media writes nothing, and the key of a thumbnail is never
    written, although the form builders look it up. *)
Theorem send_writes_only_media_keys axios_post api chatId content keyboard
    moreOptions w k :
  k ∉ send_paths content →
  cache (world_of (send axios_post api chatId content keyboard moreOptions w)) !! k
  = cache w !! k.
Proof.
  intros Hk.
  apply (send_invariant axios_post (fun c => c !! k = cache w !! k)
           (fun _ => True) (transport_ids_True axios_post)); [|done].
  intros c path fileId Hpath Hc _. rewrite <- Hc.
  apply store_lookup_other. intros ->. done.
Qed.

Lemma send_writes_only_media_keys_witness :
  cache (world_of (send answering_transport sample_api (JNum 7)
                     sample_photo_content None [] sample_world)) !! "thumb.jpg"
  = cache sample_world !! "thumb.jpg".
Proof.
  apply (send_writes_only_media_keys answering_transport sample_api (JNum 7)
           sample_photo_content None [] sample_world "thumb.jpg").
  intros Hin. apply list_elem_of_singleton in Hin. discriminate.
Defined.

(** X6: as long as the identifiers in the responses of the transport are
    not empty, a send keeps the cache well formed: every identifier it
    holds afterwards is a non-empty token. *)
Theorem send_keeps_cache_well_formed axios_post api chatId content keyboard
    moreOptions w :
  transport_ids axios_post (fun fileId => fileId ≠ "") →
  wf_cache (cache w) →
  wf_cache
    (cache (world_of (send axios_post api chatId content keyboard moreOptions w))).
Proof.
  intros Hids Hwf.
  apply (send_invariant axios_post wf_cache (fun fileId => fileId ≠ "") Hids);
    [|done].
  intros c path fileId _ Hc Hid. by apply store_wf.
Qed.

Lemma answering_transport_ids :
  transport_ids answering_transport (fun fileId => fileId ≠ "").
Proof.
  intros rq r m mediaKey info Hr Hm Hinfo.
  unfold answering_transport in Hr. injection Hr as <-.
  apply list_elem_of_singleton in Hm as ->.
  destruct mediaKey; vm_compute in Hinfo; injection Hinfo as <-; discriminate.
Qed.

Lemma send_keeps_cache_well_formed_witness :
  wf_cache
    (cache (world_of (send answering_transport sample_api (JNum 7)
                        sample_photo_content None [] sample_world))).
Proof.
  apply (send_keeps_cache_well_formed answering_transport sample_api (JNum 7)
           sample_photo_content None [] sample_world).
  - exact answering_transport_ids.
  - exact sample_cache_wf.
Defined.

(** ** Contents that [send] does not send *)

(** X7: [send] with a content that is neither a media nor a string
    ([undefined], [null], a creator of no known class, a [MessageSend]
    around no content) ends with [undefined] without calling the remote
    side: nothing is posted and nothing is thrown, even when no token is
    configured. With a [Media] of none of the subclasses it throws before
    any request. The cache and the posted requests are unchanged in every
    case. *)
Theorem send_nothing_to_send axios_post api chatId keyboard moreOptions w :
  (∀ content,
      content = inr ContentUndefined ∨ content = inr ContentNull
      ∨ (∃ o, content = inl (OtherCreator o))
      ∨ (∃ o, content = inl (MessageSend ContentUndefined o))
      ∨ (∃ o, content = inl (MessageSend ContentNull o)) →
      send axios_post api chatId content keyboard moreOptions w
      = (Return (ROther JUndefined), w))
  ∧ (∀ content pm,
        content = inr (ContentMedia (PlainMedia pm))
        ∨ (∃ o, content = inl (MessageSend (ContentMedia (PlainMedia pm)) o)) →
        ∃ msg,
          send axios_post api chatId content keyboard moreOptions w
          = (Throw (NestgramError msg), w)).
Proof.
  split.
  - intros content [->|[->|[[o ->]|[[o ->]|[o ->]]]]]; reflexivity.
  - intros content pm [->|[o ->]]; eexists; reflexivity.
Qed.

Lemma send_nothing_to_send_witness :
  send failing_transport {| token := None |} (JNum 7) (inr ContentNull) None []
    sample_world
  = (Return (ROther JUndefined), sample_world).
Proof.
  destruct (send_nothing_to_send failing_transport {| token := None |} (JNum 7)
              None [] sample_world) as [Hnone _].
  apply Hnone. right. left. reflexivity.
Defined.

(** ** Methods called without a token *)

Lemma singleSend_no_token axios_post api method form path mediaKey w :
  truthy_str (token api) = false →
  refused_without_token method w
    (singleSend axios_post api method form path mediaKey w).
Proof.
  intros Htok. unfold refused_without_token, singleSend, bind, getCache.
  by rewrite callApi_no_token.
Qed.

(** X8: without a token (none, or the empty string) every method of the
    class that calls the remote side is refused with an error that names
    its remote method, before anything is posted and with the cache
    untouched: the plain methods, the text message of [send], the seven
    media senders (whose form is built first) and [sendMediaGroup]. *)
Theorem methods_need_token axios_post api chatId v1 v2 n s1 s2 config item
    mediaGroup keyboard moreOptions w :
  truthy_str (token api) = false →
  refused_without_token "getMe" w (getMe axios_post api w)
  ∧ refused_without_token "setWebhook" w (setWebhook axios_post api config w)
  ∧ refused_without_token "deleteWebhook" w
      (deleteWebhook axios_post api (Some config) w)
  ∧ refused_without_token "sendLocation" w
      (sendLocation axios_post api chatId v1 v2 moreOptions w)
  ∧ refused_without_token "answerCallbackQuery" w
      (answerCallbackQuery axios_post api s1 moreOptions w)
  ∧ refused_without_token "answerCallbackQuery" w
      (alert axios_post api s1 s2 moreOptions w)
  ∧ refused_without_token "answerCallbackQuery" w
      (toast axios_post api s1 s2 moreOptions w)
  ∧ refused_without_token "getFile" w (getFile axios_post api s1 w)
  ∧ refused_without_token "forwardMessage" w
      (forward axios_post api n v1 v2 moreOptions w)
  ∧ refused_without_token "copyMessage" w
      (copy axios_post api n v1 v2 keyboard moreOptions w)
  ∧ refused_without_token "sendMessage" w
      (send axios_post api chatId (inr (ContentString s1)) keyboard moreOptions w)
  ∧ refused_without_token "sendPhoto" w
      (sendPhoto axios_post api chatId item keyboard moreOptions w)
  ∧ refused_without_token "sendVideo" w
      (sendVideo axios_post api chatId item keyboard moreOptions w)
  ∧ refused_without_token "sendVideoNote" w
      (sendVideoNote axios_post api chatId item keyboard moreOptions w)
  ∧ refused_without_token "sendAudio" w
      (sendAudio axios_post api chatId item keyboard moreOptions w)
  ∧ refused_without_token "sendVoice" w
      (sendVoice axios_post api chatId item keyboard moreOptions w)
  ∧ refused_without_token "sendDocument" w
      (sendDocument axios_post api chatId item keyboard moreOptions w)
  ∧ refused_without_token "sendAnimation" w
      (sendAnimation axios_post api chatId item keyboard moreOptions w)
  ∧ refused_without_token "sendMediaGroup" w
      (sendMediaGroup axios_post api chatId mediaGroup moreOptions w).
Proof.
  intros Htok.
  split_and!; try (by apply singleSend_no_token);
    try (by apply callApi_no_token).
  unfold refused_without_token, sendMediaGroup, bind, getCache.
  by rewrite callApi_no_token.
Qed.

Lemma methods_need_token_witness :
  refused_without_token "getMe" sample_world
    (getMe failing_transport {| token := Some "" |} sample_world)
  ∧ refused_without_token "sendPhoto" sample_world
      (sendPhoto failing_transport {| token := Some "" |} (JNum 7)
         (sample_item photo "a.jpg" None) None [] sample_world).
Proof.
  destruct (methods_need_token failing_transport {| token := Some "" |} (JNum 7)
              JNull JNull 0%Z "" "" [] (sample_item photo "a.jpg" None) []
              None [] sample_world eq_refl)
    as (Hme & _ & _ & _ & _ & _ & _ & _ & _ & _ & _ & Hphoto & _).
  split; [exact Hme | exact Hphoto].
Defined.

(** ** Options, arguments and keyboards *)

Lemma js_get_spread (src o : JsObject) k :
  NoDup (js_keys src) →
  js_get (js_spread o src) k
  = if decide (k ∈ js_keys src) then js_get src k else js_get o k.
Proof.
  intros Hnd. destruct (decide (k ∈ js_keys src)).
  - by apply js_get_spread_present.
  - by apply js_get_spread_absent.
Qed.

(** X10: in the body of [forward], and of [sendLocation], a field of
    [moreOptions] takes precedence over the argument of the same name; the
    fields that [moreOptions] does not define carry the arguments; and every
    field of [moreOptions] is carried with its value, falsy or not. *)
Theorem options_override_arguments axios_post api msgId fromChatId toChatId
    chatId latitude longitude (moreOptions : JsObject) w :
  truthy_str (token api) = true →
  NoDup (js_keys moreOptions) →
  (∃ body,
      posted (world_of (forward axios_post api msgId fromChatId toChatId
                          moreOptions w))
      = posted w ++ [request_of api "forwardMessage" (PJson (JObj body))]
      ∧ ∀ k, js_get body k
             = if decide (k ∈ js_keys moreOptions) then js_get moreOptions k
               else js_get [("chat_id", toChatId); ("from_chat_id", fromChatId);
                            ("message_id", JNum msgId)] k)
  ∧ (∃ body,
        posted (world_of (sendLocation axios_post api chatId latitude longitude
                            moreOptions w))
        = posted w ++ [request_of api "sendLocation" (PJson (JObj body))]
        ∧ ∀ k, js_get body k
               = if decide (k ∈ js_keys moreOptions) then js_get moreOptions k
                 else js_get [("chat_id", chatId); ("latitude", latitude);
                              ("longitude", longitude)] k).
Proof.
  intros Htok Hnd. split.
  - eexists. unfold forward. rewrite callApi_posts by done.
    split; [reflexivity|]. intros k. by apply js_get_spread.
  - eexists. unfold sendLocation. rewrite callApi_posts by done.
    split; [reflexivity|]. intros k. by apply js_get_spread.
Qed.

Lemma options_override_arguments_witness :
  ∃ body,
    posted (world_of (forward answering_transport sample_api 5 (JNum 1) (JNum 2)
                        [("chat_id", JNum 3); ("disable_notification", JBool false)]
                        sample_world))
    = posted sample_world
        ++ [request_of sample_api "forwardMessage" (PJson (JObj body))]
    ∧ js_get body "chat_id" = JNum 3
    ∧ js_get body "from_chat_id" = JNum 1
    ∧ js_get body "disable_notification" = JBool false.
Proof.
  destruct (options_override_arguments answering_transport sample_api 5 (JNum 1)
              (JNum 2) JNull JNull JNull
              [("chat_id", JNum 3); ("disable_notification", JBool false)]
              sample_world) as [(body & Hposted & Hbody) _].
  - reflexivity.
  - apply (bool_decide_unpack _). vm_compute. exact I.
  - exists body. split; [exact Hposted|].
    rewrite !Hbody. split_and!; reflexivity.
Defined.

Lemma saveMediaFileId_posted path mediaKey message w :
  posted (world_of (saveMediaFileId path mediaKey message w)) = posted w.
Proof.
  rewrite saveMediaFileId_unfold.
  destruct (truthy_str (cache w !! path)); [done|].
  by destruct (mediaFileInfo_of message mediaKey).
Qed.

Lemma singleSend_posted axios_post api method form path mediaKey w :
  truthy_str (token api) = true →
  posted (world_of (singleSend axios_post api method form path mediaKey w))
  = posted w ++ [request_of api method (PForm (form (cache w)))].
Proof.
  intros Htok. unfold singleSend, bind, getCache.
  rewrite callApi_with_token by done.
  destruct (axios_post _); [|done]. by rewrite saveMediaFileId_posted.
Qed.

Lemma with_keyboard_markup (fixed moreOptions : JsObject) kb :
  NoDup (js_keys moreOptions) →
  js_get (js_spread fixed (with_keyboard (Some kb) moreOptions)) "reply_markup"
  = buildMarkup kb.
Proof.
  intros Hnd. simpl. rewrite js_get_spread_present.
  - apply js_get_set_eq.
  - by apply js_keys_set_NoDup.
  - apply js_keys_set_elem. by right.
Qed.

Lemma buildFormData_markup c fromMediaKey m (fixed moreOptions : JsObject) kb v :
  NoDup (js_keys moreOptions) →
  truthy (buildMarkup kb) = true →
  fromMediaKey ≠ "reply_markup" →
  ("reply_markup", v)
  ∈ buildFormData c fromMediaKey m
      (js_spread fixed (with_keyboard (Some kb) moreOptions))
  ↔ v = form_field_value (buildMarkup kb).
Proof.
  intros Hnd Htruthy Hne. rewrite buildFormData_parts.
  pose proof (with_keyboard_markup fixed moreOptions kb Hnd) as Hget.
  split.
  - intros Hin. apply elem_of_cons in Hin as [Heq|Hin]; [congruence|].
    apply elem_of_app in Hin as [Hin|Hin].
    + by apply thumbFields_elem in Hin as [? _].
    + apply buildAttachFormData_elem in Hin as (_ & _ & ->). by rewrite Hget.
  - intros ->. right. apply elem_of_app. right.
    rewrite <- Hget. apply buildAttachFormData_intro. by rewrite Hget.
Qed.

(** X11: a keyboard takes precedence over a [reply_markup] given in
    [moreOptions]. Each of the seven media senders posts a form in which the
    field [reply_markup] occurs exactly with the markup built by the
    keyboard (as JSON text when it is an object), and the body of [copy]
    holds that markup under [reply_markup]. *)
Theorem keyboard_overrides_reply_markup axios_post api chatId item kb msgId
    fromChatId toChatId (moreOptions : JsObject) w :
  truthy_str (token api) = true →
  NoDup (js_keys moreOptions) →
  truthy (buildMarkup kb) = true →
  posts_markup api "sendPhoto" w (buildMarkup kb)
    (sendPhoto axios_post api chatId item (Some kb) moreOptions w)
  ∧ posts_markup api "sendVideo" w (buildMarkup kb)
      (sendVideo axios_post api chatId item (Some kb) moreOptions w)
  ∧ posts_markup api "sendVideoNote" w (buildMarkup kb)
      (sendVideoNote axios_post api chatId item (Some kb) moreOptions w)
  ∧ posts_markup api "sendAudio" w (buildMarkup kb)
      (sendAudio axios_post api chatId item (Some kb) moreOptions w)
  ∧ posts_markup api "sendVoice" w (buildMarkup kb)
      (sendVoice axios_post api chatId item (Some kb) moreOptions w)
  ∧ posts_markup api "sendDocument" w (buildMarkup kb)
      (sendDocument axios_post api chatId item (Some kb) moreOptions w)
  ∧ posts_markup api "sendAnimation" w (buildMarkup kb)
      (sendAnimation axios_post api chatId item (Some kb) moreOptions w)
  ∧ ∃ body,
      posted (world_of (copy axios_post api msgId fromChatId toChatId (Some kb)
                          moreOptions w))
      = posted w ++ [request_of api "copyMessage" (PJson (JObj body))]
      ∧ js_get body "reply_markup" = buildMarkup kb.
Proof.
  intros Htok Hnd Htruthy.
  assert (Hsend : ∀ method fromMediaKey fixed mediaKey,
            fromMediaKey ≠ "reply_markup" →
            posts_markup api method w (buildMarkup kb)
              (singleSend axios_post api method
                 (fun c => buildFormData c fromMediaKey (base item)
                             (js_spread fixed
                                (with_keyboard (Some kb) moreOptions)))
                 (media (base item)) mediaKey w)).
  { intros method fromMediaKey fixed mediaKey Hne. eexists. split.
    - by apply singleSend_posted.
    - intros v. by apply buildFormData_markup. }
  split_and!; try (by apply Hsend).
  eexists. unfold copy. rewrite callApi_posts by done.
  split; [reflexivity|]. by apply with_keyboard_markup.
Qed.

Lemma keyboard_overrides_reply_markup_witness :
  posts_markup sample_api "sendPhoto" sample_world (buildMarkup sample_keyboard)
    (sendPhoto answering_transport sample_api (JNum 7)
       (sample_item photo "a.jpg" None) (Some sample_keyboard)
       [("reply_markup", JObj [("force_reply", JBool true)])] sample_world).
Proof.
  destruct (keyboard_overrides_reply_markup answering_transport sample_api
              (JNum 7) (sample_item photo "a.jpg" None) sample_keyboard 5
              (JNum 1) (JNum 2)
              [("reply_markup", JObj [("force_reply", JBool true)])]
              sample_world) as [Hphoto _].
  - reflexivity.
  - apply (bool_decide_unpack _). vm_compute. exact I.
  - reflexivity.
  - exact Hphoto.
Defined.

(** ** Text messages *)

(** X12: [send] with a string posts [sendMessage] with a body that carries
    the text (the empty string too), the chat id and [parse_mode] "HTML",
    each unless [moreOptions] defines the field, which then takes
    precedence; an [Alert] or a [Toast] given to [send] is sent as the text
    message of its text, and so is a [MessageSend] around a string, with the
    options of the creator spread over [moreOptions]. *)
Theorem send_text_message axios_post api chatId text (moreOptions : JsObject) w :
  truthy_str (token api) = true →
  NoDup (js_keys moreOptions) →
  (∃ body,
      posted (world_of (send axios_post api chatId (inr (ContentString text))
                          None moreOptions w))
      = posted w ++ [request_of api "sendMessage" (PJson (JObj body))]
      ∧ ∀ k, js_get body k
             = if decide (k ∈ js_keys moreOptions) then js_get moreOptions k
               else js_get [("text", JStr text); ("chat_id", chatId);
                            ("parse_mode", JStr "HTML")] k)
  ∧ ∀ keyboard o,
      send axios_post api chatId (inl (Alert text o)) keyboard moreOptions w
      = send axios_post api chatId (inr (ContentString text)) keyboard
          (js_spread moreOptions o) w
      ∧ send axios_post api chatId (inl (Toast text o)) keyboard moreOptions w
        = send axios_post api chatId (inr (ContentString text)) keyboard
            (js_spread moreOptions o) w
      ∧ send axios_post api chatId (inl (MessageSend (ContentString text) o))
          keyboard moreOptions w
        = send axios_post api chatId (inr (ContentString text)) keyboard
            (js_spread moreOptions o) w.
Proof.
  intros Htok Hnd. split.
  - eexists. simpl. rewrite callApi_posts by done.
    split; [reflexivity|]. intros k. by apply js_get_spread.
  - intros keyboard o. by split_and!.
Qed.

Lemma send_text_message_witness :
  ∃ body,
    posted (world_of (send answering_transport sample_api (JNum 7)
                        (inr (ContentString "")) None
                        [("parse_mode", JStr "Markdown")] sample_world))
    = posted sample_world
        ++ [request_of sample_api "sendMessage" (PJson (JObj body))]
    ∧ js_get body "text" = JStr ""
    ∧ js_get body "parse_mode" = JStr "Markdown".
Proof.
  destruct (send_text_message answering_transport sample_api (JNum 7) ""
              [("parse_mode", JStr "Markdown")] sample_world)
    as [(body & Hposted & Hbody) _].
  - reflexivity.
  - apply (bool_decide_unpack _). vm_compute. exact I.
  - exists body. split; [exact Hposted|]. rewrite !Hbody. split; reflexivity.
Defined.

(** ** From a miss to a hit *)

Lemma singleSend_cached axios_post api method form path mediaKey w :
  truthy_str (cache w !! path) = true →
  cache (world_of (singleSend axios_post api method form path mediaKey w))
  = cache w.
Proof.
  intros Hc. unfold singleSend, bind, getCache.
  pose proof (callApi_cache axios_post api method (PForm (form (cache w))) w)
    as Hcache.
  destruct (callApi axios_post api method (PForm (form (cache w))) w)
    as [[result|exn] w'] eqn:E; simpl in *; [|done].
  rewrite saveMediaFileId_unfold, Hcache, Hc. done.
Qed.

(** X13: the round trip of the cache. After a successful [sendPhoto] of a
    photo whose key was not cached, with a non-empty identifier for its
    largest size, every form built for that photo starts with the identifier
    as a plain string instead of a stream, the next [sendPhoto] posts such a
    form, and it leaves the cache as the first one made it, whatever the
    transport answers. *)
Theorem send_then_cache_hit axios_post api chatId item keyboard moreOptions w m
    sizes largest :
  truthy_str (token api) = true →
  resolves_with axios_post (RMessage m) →
  cache w !! media (base item) = None →
  m_photo m = Some sizes → last sizes = Some largest →
  file_id largest ≠ "" →
  ∀ w1, w1 = world_of (sendPhoto axios_post api chatId item keyboard moreOptions w) →
    (∀ fromMediaKey config,
        buildFormData (cache w1) fromMediaKey (base item) config !! 0%nat
        = Some (fromMediaKey, FString (file_id largest)))
    ∧ ∀ axios_post' chatId' keyboard' moreOptions',
        cache (world_of (sendPhoto axios_post' api chatId' item keyboard'
                           moreOptions' w1))
        = cache w1
        ∧ ∃ form,
            posted (world_of (sendPhoto axios_post' api chatId' item keyboard'
                                moreOptions' w1))
            = posted w1 ++ [request_of api "sendPhoto" (PForm form)]
            ∧ form !! 0%nat = Some ("photo", FString (file_id largest)).
Proof.
  intros Htok Hres Hc Hsizes Hlast Hid w1 ->.
  destruct (singleSend_resolved axios_post api "sendPhoto"
              (fun c => buildFormData c "photo" (base item)
                          (js_spread [("chat_id", chatId);
                                      ("parse_mode", JStr "HTML")]
                                     (with_keyboard keyboard moreOptions)))
              (media (base item)) photo w m largest) as [_ Hcache]; try done.
  { by rewrite (message_field_photo m sizes). }
  change (singleSend axios_post api "sendPhoto" _ _ _ w)
    with (sendPhoto axios_post api chatId item keyboard moreOptions w) in Hcache.
  set (w1 := world_of (sendPhoto axios_post api chatId item keyboard moreOptions w))
    in *.
  assert (Hstored : cache w1 !! media (base item) = Some (file_id largest)).
  { rewrite Hcache. apply lookup_insert_eq. }
  assert (Hform : ∀ fromMediaKey config,
            buildFormData (cache w1) fromMediaKey (base item) config !! 0%nat
            = Some (fromMediaKey, FString (file_id largest))).
  { intros fromMediaKey config. rewrite buildFormData_parts.
    by rewrite (cached_or_hit _ _ (file_id largest)). }
  split; [done|].
  intros axios_post' chatId' keyboard' moreOptions'. split.
  - apply singleSend_cached. rewrite Hstored. by apply truthy_str_Some.
  - eexists. split; [by apply singleSend_posted|]. apply Hform.
Qed.

Lemma send_then_cache_hit_witness :
  buildFormData
    (cache (world_of (sendPhoto answering_transport sample_api (JNum 7)
                        (sample_item photo "a.jpg" None) None [] sample_world)))
    "photo" (sample_media photo "a.jpg") sample_config !! 0%nat
  = Some ("photo", FString "ABC123").
Proof.
  destruct (send_then_cache_hit answering_transport sample_api (JNum 7)
              (sample_item photo "a.jpg" None) None [] sample_world
              (sample_message 0 "ABC123")
              [{| file_id := "ABC123" +:+ "-small" |};
               {| file_id := "ABC123" +:+ "-medium" |};
               {| file_id := "ABC123" |}] {| file_id := "ABC123" |})
    with (w1 := world_of (sendPhoto answering_transport sample_api (JNum 7)
                            (sample_item photo "a.jpg" None) None []
                            sample_world)) as [Hform _].
  - reflexivity.
  - intros rq. reflexivity.
  - vm_compute. reflexivity.
  - reflexivity.
  - reflexivity.
  - discriminate.
  - reflexivity.
  - apply (Hform "photo" sample_config).
Defined.

(** ** What a media group uploads *)

(** X14: in the form of a media group, a stream or a buffer is always the
    part of a reference that the cache does not resolve, the media of an
    item under the name of its index or its thumbnail under that name
    followed by [_thumb]. When the cache resolves every media and every
    thumbnail of the group, nothing is attached: the form is the form of
    the configuration alone and has no binary part. *)
Theorem media_group_uploads_only_misses c chatId mediaGroup moreOptions :
  (∀ k v,
      (k, v) ∈ mediaGroupFormData c chatId mediaGroup moreOptions →
      is_binary v = true →
      ∃ j item,
        mediaGroup !! j = Some item
        ∧ ((k = pretty j ∧ v = binaryPart (base item)
            ∧ truthy_str (c !! media (base item)) = false)
           ∨ (∃ t, thumb item = Some t ∧ k = pretty j +:+ "_thumb"
                   ∧ v = binaryPart t ∧ truthy_str (c !! media t) = false)))
  ∧ ((∀ item, item ∈ mediaGroup →
              truthy_str (c !! media (base item)) = true
              ∧ ∀ t, thumb item = Some t → truthy_str (c !! media t) = true) →
     mediaGroupFormData c chatId mediaGroup moreOptions
     = buildAttachFormData (groupConfig c chatId mediaGroup moreOptions)
     ∧ Forall (fun field => is_binary field.2 = false)
              (mediaGroupFormData c chatId mediaGroup moreOptions)).
Proof.
  split.
  - intros k v Hin Hbin. rewrite mediaGroupFormData_parts in Hin.
    apply elem_of_app in Hin as [Hin|Hin].
    { apply buildAttachFormData_not_binary in Hin. congruence. }
    apply groupAttachments_elem in Hin as (j & item & Hitem & Hin).
    exists j, item. split; [done|].
    apply attachMedia_elem in Hin as [[Hc Heq]|(t & Ht & Hc & Heq)];
      simplify_eq; [left|right]; eauto.
  - intros Hall.
    assert (Hnone : groupAttachments c mediaGroup = []).
    { destruct (groupAttachments c mediaGroup) as [|kv l] eqn:E; [done|].
      assert (Hin : kv ∈ groupAttachments c mediaGroup)
        by (rewrite E; by left).
      apply groupAttachments_elem in Hin as (j & item & Hitem & Hin).
      apply list_elem_of_lookup_2 in Hitem.
      destruct (Hall item Hitem) as [Hmedia Hthumb].
      apply attachMedia_elem in Hin as [[Hc _]|(t & Ht & Hc & _)].
      - congruence.
      - rewrite (Hthumb t Ht) in Hc. done. }
    rewrite mediaGroupFormData_parts, Hnone, app_nil_r. split; [done|].
    apply Forall_forall. intros [k v] Hin. simpl.
    by apply buildAttachFormData_not_binary in Hin.
Qed.

Lemma media_group_uploads_only_misses_witness :
  mediaGroupFormData sample_cache (JNum 7) [sample_item photo "b.jpg" None] []
  = buildAttachFormData
      (groupConfig sample_cache (JNum 7) [sample_item photo "b.jpg" None] [])
  ∧ Forall (fun field => is_binary field.2 = false)
           (mediaGroupFormData sample_cache (JNum 7)
              [sample_item photo "b.jpg" None] []).
Proof.
  destruct (media_group_uploads_only_misses sample_cache (JNum 7)
              [sample_item photo "b.jpg" None] []) as [_ Hall].
  apply Hall. intros item Hitem. apply list_elem_of_singleton in Hitem as ->.
  split; [reflexivity|]. intros t Ht. discriminate.
Defined.

(** ** The names of the attached parts, as a whole *)

Lemma pretty_N_go_length x s :
  String.length s ≤ String.length (pretty_N_go x s).
Proof.
  revert s. induction (N.lt_wf_0 x) as [x _ IH]; intros s.
  destruct (decide (0 < x)%N) as [Hx|Hx].
  - rewrite pretty_N_go_step by done.
    etrans; [|apply IH; by apply N.div_lt]. simpl. lia.
  - assert (x = 0%N) as -> by lia. by rewrite pretty_N_go_0.
Qed.

Lemma pretty_nat_starts_with_digit (n : nat) : starts_with_digit (pretty n) = true.
Proof.
  pose proof (pretty_nat_digits n) as Hd.
  assert (Hlen : 0 < String.length (pretty n)).
  { unfold pretty, pretty_nat, pretty, pretty_N.
    destruct (decide _) as [|Hne]; [simpl; lia|].
    rewrite pretty_N_go_step by lia.
    eapply Nat.lt_le_trans; [|apply pretty_N_go_length]. simpl. lia. }
  destruct (pretty n) as [|a s]; simpl in *; [lia|].
  by apply andb_prop in Hd as [? _].
Qed.

Lemma starts_with_digit_app s t :
  starts_with_digit s = true → starts_with_digit (s +:+ t) = true.
Proof. by destruct s. Qed.

Lemma groupAttachments_snoc c mediaGroup m :
  groupAttachments c (mediaGroup ++ [m])
  = groupAttachments c mediaGroup ++ attachMedia c [] (length mediaGroup) m.
Proof.
  unfold groupAttachments. rewrite !fold_attachMedia, !app_nil_l.
  rewrite imap_app, fmap_app, join_app. simpl.
  by rewrite Nat.add_0_r, app_nil_r.
Qed.

Lemma attachMedia_names c index m k :
  k ∈ form_names (attachMedia c [] index m) →
  k = pretty index ∨ k = pretty index +:+ "_thumb".
Proof.
  unfold form_names. intros Hin.
  apply list_elem_of_fmap in Hin as ([k' v] & -> & Hin).
  apply attachMedia_elem in Hin as [[_ Heq]|(t & _ & _ & Heq)];
    simplify_eq; simpl; eauto.
Qed.

Lemma attachMedia_names_NoDup c index m :
  NoDup (form_names (attachMedia c [] index m)).
Proof.
  rewrite attachMedia_nil. unfold form_names.
  destruct (truthy_str (c !! media (base m)));
    destruct (thumb m) as [t|]; try destruct (truthy_str (c !! media t));
    csimpl; repeat constructor;
    try (by intros Hin; apply elem_of_nil in Hin).
  intros Hin. apply list_elem_of_singleton in Hin.
  by apply pretty_ne_thumb in Hin.
Qed.

(** X15: the parts attached for a media group have pairwise distinct names,
    and each name starts with a digit: a reference [attach://name] of a
    descriptor designates one part, and no attached part can take the name
    of a field such as [chat_id] or [media]. *)
Theorem attachment_names_distinct c mediaGroup :
  NoDup (form_names (groupAttachments c mediaGroup))
  ∧ ∀ k, k ∈ form_names (groupAttachments c mediaGroup) →
         starts_with_digit k = true.
Proof.
  split.
  - induction mediaGroup as [|m mediaGroup IH] using rev_ind.
    + apply NoDup_nil_2.
    + rewrite groupAttachments_snoc. unfold form_names in *.
      rewrite fmap_app. apply NoDup_app. split_and!; [done| |].
      * intros k Hpre Hlast.
        apply groupAttachments_name in Hpre as (j & item & Hitem & Hk).
        apply lookup_lt_Some in Hitem.
        apply attachMedia_names in Hlast.
        destruct Hk as [[_ ->]|(t & _ & _ & ->)];
          destruct Hlast as [Heq|Heq].
        -- apply (inj pretty) in Heq. lia.
        -- by apply pretty_ne_thumb in Heq.
        -- symmetry in Heq. by apply pretty_ne_thumb in Heq.
        -- apply pretty_thumb_inj in Heq. lia.
      * apply attachMedia_names_NoDup.
  - intros k (j & item & _ & [[_ ->]|(t & _ & _ & ->)])%groupAttachments_name.
    + apply pretty_nat_starts_with_digit.
    + apply starts_with_digit_app, pretty_nat_starts_with_digit.
Qed.

(** X16: [send] with a media group does not use the keyboard. The call is
    the call of [sendMediaGroup] with the same options, and unless the
    options themselves define [reply_markup] the form has no field of that
    name, whatever keyboard was given. *)
Theorem send_media_group_drops_keyboard axios_post api chatId mediaGroup keyboard
    (moreOptions : JsObject) w :
  send axios_post api chatId (inr (ContentMedia (MediaGroup mediaGroup)))
    keyboard moreOptions w
  = sendMediaGroup axios_post api chatId mediaGroup moreOptions w
  ∧ ("reply_markup" ∉ js_keys moreOptions →
     "reply_markup"
     ∉ form_names (mediaGroupFormData (cache w) chatId mediaGroup moreOptions)).
Proof.
  split; [reflexivity|].
  intros Hopts. rewrite mediaGroupFormData_parts. unfold form_names.
  rewrite fmap_app. intros [Hin|Hin]%elem_of_app.
  - apply buildAttachFormData_name in Hin. unfold groupConfig in Hin.
    rewrite js_get_spread_absent in Hin by done. done.
  - apply groupAttachments_name in Hin
      as (j & item & _ & [[_ Heq]|(t & _ & _ & Heq)]).
    + pose proof (pretty_nat_starts_with_digit j) as Hd.
      rewrite <- Heq in Hd. done.
    + pose proof (starts_with_digit_app (pretty j) "_thumb"
                    (pretty_nat_starts_with_digit j)) as Hd.
      rewrite <- Heq in Hd. done.
Qed.

Lemma send_media_group_drops_keyboard_witness :
  "reply_markup"
  ∉ form_names (mediaGroupFormData (cache sample_world) (JNum 7) sample_group []).
Proof.
  destruct (send_media_group_drops_keyboard answering_transport sample_api
              (JNum 7) sample_group (Some sample_keyboard) [] sample_world)
    as [_ Hnames].
  apply Hnames. intros Hin. by apply elem_of_nil in Hin.
Defined.

(** ** A write-back that stops half-way *)

Lemma forEach_app {A} (body : A → Js unit) (xs ys : list A) w :
  forEach body (xs ++ ys) w
  = bind (forEach body xs) (fun _ => forEach body ys) w.
Proof.
  revert w. induction xs as [|x xs IH]; intros w; simpl; [reflexivity|].
  unfold bind at 1 2 3. destruct (body x w) as [[[]|e] w']; [|done].
  apply IH.
Qed.

Lemma forEach_writeBack_segment mediaGroup sentMessages :
  NoDup (oid <$> sentMessages) →
  ∀ good pre mggood mgpre tail mgtail w,
    sentMessages = pre ++ good ++ tail →
    mediaGroup = mgpre ++ mggood ++ mgtail →
    length pre = length mgpre →
    length good = length mggood →
    (∀ i a m, mggood !! i = Some a → good !! i = Some m →
              is_Some (message_field m (type (base a)))) →
    forEach (writeBack mediaGroup sentMessages) good w
    = (Return tt,
       {| cache := fold_left writeBackStep (zip mggood good) (cache w);
          posted := posted w |}).
Proof.
  intros Hnd good.
  induction good as [|m good IH];
    intros pre mggood mgpre tail mgtail w Hms Hmg Hpre Hgood Hfields.
  - destruct mggood; [|done]. simpl. by destruct w.
  - destruct mggood as [|a mggood]; [done|]. simpl in Hgood.
    assert (Hidx : indexOf sentMessages m = Some (length pre)).
    { rewrite Hms. simpl. apply indexOf_middle. simpl in Hms. by rewrite <- Hms. }
    assert (Ha : mediaGroup !! length pre = Some a).
    { rewrite Hmg, Hpre. simpl. by rewrite list_lookup_middle. }
    destruct (Hfields 0%nat a m) as [info Hinfo]; [done|done|].
    simpl. unfold bind at 1.
    rewrite (writeBack_run _ _ _ _ _ _ _ Hidx Ha Hinfo).
    rewrite (IH (pre ++ [m]) mggood (mgpre ++ [a]) tail mgtail).
    + done.
    + by rewrite <- app_assoc.
    + by rewrite <- app_assoc.
    + rewrite !length_app. simpl. lia.
    + lia.
    + intros i a' m' Ha' Hm'. by apply (Hfields (S i)).
Qed.

(** X17: the write-back of a media group is not all or nothing. When the
    response holds well-formed messages for the first items and then a
    message with no item at its position, or without the media of its
    item's kind while the key of that item is not cached, the call throws a
    [TypeError] and the cache keeps the write-backs of the first items. *)
Theorem group_write_back_stops_at_failure axios_post api chatId mediaGroup
    moreOptions w pre m rest :
  truthy_str (token api) = true →
  resolves_with axios_post (RMessages (pre ++ m :: rest)) →
  NoDup (oid <$> (pre ++ m :: rest)) →
  length pre ≤ length mediaGroup →
  (∀ i a m', mediaGroup !! i = Some a → pre !! i = Some m' →
             is_Some (message_field m' (type (base a)))) →
  (mediaGroup !! length pre = None
   ∨ ∃ a, mediaGroup !! length pre = Some a
          ∧ message_field m (type (base a)) = None
          ∧ truthy_str (positionalWriteBack (cache w) mediaGroup pre
                          !! media (base a)) = false) →
  result_of (sendMediaGroup axios_post api chatId mediaGroup moreOptions w)
  = Throw TypeError
  ∧ cache (world_of (sendMediaGroup axios_post api chatId mediaGroup moreOptions w))
    = positionalWriteBack (cache w) mediaGroup pre.
Proof.
  intros Htok Hres Hnd Hlen Hfields Hfail.
  set (sent := pre ++ m :: rest) in *.
  assert (Hloop : ∀ w0,
            cache w0 = cache w →
            forEach (writeBack mediaGroup sent) sent w0
            = (Throw TypeError,
               {| cache := positionalWriteBack (cache w) mediaGroup pre;
                  posted := posted w0 |})).
  { intros w0 Hw0. unfold sent at 2. rewrite forEach_app. unfold bind at 1.
    rewrite (forEach_writeBack_segment mediaGroup sent Hnd pre []
               (take (length pre) mediaGroup) [] (m :: rest)
               (drop (length pre) mediaGroup)); try done.
    - assert (Hidx : indexOf sent m = Some (length pre))
        by (by apply indexOf_middle).
      assert (Hzip : fold_left writeBackStep
                       (zip (take (length pre) mediaGroup) pre) (cache w0)
                     = positionalWriteBack (cache w) mediaGroup pre).
      { unfold positionalWriteBack. rewrite Hw0. f_equal.
        apply zip_with_take_l. }
      rewrite Hzip. simpl. unfold bind at 1, writeBack. rewrite Hidx. simpl.
      destruct Hfail as [Hnone|(a & Ha & Hfield & Hc)].
      + by rewrite Hnone.
      + rewrite Ha. unfold bind. rewrite saveMediaFileId_unfold. simpl.
        by rewrite Hc, Hfield.
    - simpl. by rewrite take_drop.
    - by rewrite length_take_le.
    - intros i a m' Ha Hm'. apply (Hfields i); [|done].
      apply lookup_take_Some in Ha as [? _]. done. }
  assert (Hrun : sendMediaGroup axios_post api chatId mediaGroup moreOptions w
                 = (Throw TypeError,
                    {| cache := positionalWriteBack (cache w) mediaGroup pre;
                       posted := posted w ++
                         [request_of api "sendMediaGroup"
                            (PForm (mediaGroupFormData (cache w) chatId
                                      mediaGroup moreOptions))] |})).
  { unfold sendMediaGroup, bind at 1 2, getCache.
    rewrite callApi_with_token by done. rewrite Hres. unfold bind.
    by rewrite Hloop. }
  by rewrite Hrun.
Qed.

Example group_write_back_stops_example :
  let broken := {| oid := 11; m_photo := None; m_video := None;
                   m_video_note := None; m_audio := None; m_voice := None;
                   m_document := None; m_animation := None |} in
  let r := sendMediaGroup
             (fun _ => Resolved (RMessages [sample_message 10 "M0"; broken]))
             sample_api (JNum 7)
             [sample_item photo "a.jpg" None; sample_item photo "d.jpg" None] []
             sample_world in
  result_of r = Throw TypeError
  ∧ cache (world_of r) !! "a.jpg" = Some "M0"
  ∧ cache (world_of r) !! "d.jpg" = None.
Proof. vm_compute. split_and!; reflexivity. Qed.

Lemma group_write_back_stops_at_failure_witness :
  result_of (sendMediaGroup
               (fun _ => Resolved (RMessages ([sample_message 10 "M0"]
                                              ++ broken_message :: [])))
               sample_api (JNum 7) sample_pair [] sample_world)
  = Throw TypeError
  ∧ cache (world_of
             (sendMediaGroup
                (fun _ => Resolved (RMessages ([sample_message 10 "M0"]
                                               ++ broken_message :: [])))
                sample_api (JNum 7) sample_pair [] sample_world))
    = positionalWriteBack (cache sample_world) sample_pair
        [sample_message 10 "M0"].
Proof.
  apply (group_write_back_stops_at_failure
           (fun _ => Resolved (RMessages ([sample_message 10 "M0"]
                                          ++ broken_message :: [])))
           sample_api (JNum 7) sample_pair [] sample_world
           [sample_message 10 "M0"] broken_message []).
  - reflexivity.
  - intros rq. reflexivity.
  - apply (bool_decide_unpack _). vm_compute. exact I.
  - simpl. lia.
  - intros i a m' Ha Hm'. destruct i as [|i]; [|done].
    simpl in Ha, Hm'. injection Ha as <-. injection Hm' as <-.
    vm_compute. eauto.
  - right. exists (sample_item photo "d.jpg" None).
    split_and!; [reflexivity|reflexivity|vm_compute; reflexivity].
Defined.

(** ** The descriptors of a media group *)

(** X18: the descriptor array of a media group has one descriptor per item,
    in order. In the descriptor of an item: the per-item options take
    precedence over every other property; an item without a thumbnail has
    no [thumb] property at all; the resolution is merged for an instance of
    [Video], and left out for any other item. *)
Theorem media_group_descriptors c mediaGroup :
  length (imap (inputMedia c) mediaGroup) = length mediaGroup
  ∧ ∀ i item,
      mediaGroup !! i = Some item →
      ∃ d,
        imap (inputMedia c) mediaGroup !! i = Some (JObj d)
        ∧ (NoDup (js_keys (options item)) →
           ∀ k, k ∈ js_keys (options item) → js_get d k = js_get (options item) k)
        ∧ (thumb item = None →
           "thumb" ∉ js_keys (resolution item) →
           "thumb" ∉ js_keys (options item) →
           "thumb" ∉ js_keys d)
        ∧ (isVideo item = true →
           NoDup (js_keys (resolution item)) →
           ∀ k, k ∈ js_keys (resolution item) → k ∉ js_keys (options item) →
                js_get d k = js_get (resolution item) k)
        ∧ (isVideo item = false →
           ∀ k, k ∉ js_keys (options item) →
                k ≠ "type" → k ≠ "media" → k ≠ "thumb" →
                k ∉ js_keys d).
Proof.
  split; [apply length_imap|].
  intros i item Hitem. eexists. split.
  { rewrite list_lookup_imap, Hitem. reflexivity. }
  assert (Hbase : ∀ k, k ∈ js_keys
            (js_spread
               [("type", JStr (MediaFileTypes_name (type (base item))));
                ("media",
                 JStr (cached_or_attach c (media (base item))
                         ("attach://" +:+ pretty i)))]
               (match thumb item with
                | Some t =>
                    [("thumb",
                      JStr (cached_or_attach c (media t)
                              ("attach://" +:+ pretty i +:+ "_thumb")))]
                | None => []
                end)) →
            k = "type" ∨ k = "media" ∨ (k = "thumb" ∧ is_Some (thumb item))).
  { intros k [Hk|Hk]%js_keys_spread_elem.
    - unfold js_keys in Hk. csimpl in Hk.
      apply elem_of_cons in Hk as [->|Hk]; [by left|].
      apply list_elem_of_singleton in Hk as ->. right. by left.
    - destruct (thumb item); [|by apply elem_of_nil in Hk].
      apply list_elem_of_singleton in Hk as ->. right. right. eauto. }
  split_and!.
  - intros Hnd k Hk. by apply js_get_spread_present.
  - intros Hthumb Hres Hopts [Hk|Hk]%js_keys_spread_elem; [|done].
    apply js_keys_spread_elem in Hk as [Hk|Hk].
    + apply Hbase in Hk as [?|[?|[_ [t Ht]]]]; congruence.
    + destruct (isVideo item); [done|]. by apply elem_of_nil in Hk.
  - intros Hvideo Hnd k Hk Hopts. rewrite js_get_spread_absent by done.
    rewrite Hvideo. by apply js_get_spread_present.
  - intros Hvideo k Hopts Htype Hmedia Hthumb [Hk|Hk]%js_keys_spread_elem;
      [|done].
    rewrite Hvideo in Hk. apply js_keys_spread_elem in Hk as [Hk|Hk].
    + apply Hbase in Hk as [?|[?|[? _]]]; congruence.
    + by apply elem_of_nil in Hk.
Qed.

Lemma media_group_descriptors_witness :
  ∃ d,
    imap (inputMedia sample_cache)
      [{| base := sample_media photo "a.jpg"; thumb := None; isVideo := false;
          resolution := [("width", JNum 640)];
          options := [("caption", JStr "hello")] |}] !! 0%nat
    = Some (JObj d)
    ∧ js_get d "caption" = JStr "hello"
    ∧ ("thumb" ∉ js_keys d)
    ∧ ("width" ∉ js_keys d).
Proof.
  destruct (media_group_descriptors sample_cache
              [{| base := sample_media photo "a.jpg"; thumb := None;
                  isVideo := false; resolution := [("width", JNum 640)];
                  options := [("caption", JStr "hello")] |}])
    as [_ Hitems].
  destruct (Hitems 0%nat _ eq_refl) as (d & Hd & Hopts & Hthumb & _ & Hres).
  exists d. split; [exact Hd|]. split_and!.
  - rewrite Hopts; [reflexivity| |].
    + apply (bool_decide_unpack _). vm_compute. exact I.
    + by left.
  - apply Hthumb; [reflexivity| |]; simpl; intros Hin;
      apply list_elem_of_singleton in Hin; discriminate.
  - apply Hres; [reflexivity| |discriminate|discriminate|discriminate].
    simpl. intros Hin. apply list_elem_of_singleton in Hin. discriminate.
Defined.

(** ** A response that is not a list of messages *)





Example sendMediaGroup_string_result :
  result_of (sendMediaGroup (fun _ => Resolved (ROther (JStr "ab"))) sample_api
               (JNum 7) [sample_item photo "b.jpg" None] [] sample_world)
  = Throw TypeError
  ∧ result_of (sendMediaGroup (fun _ => Resolved (ROther (JStr "aa")))
                 sample_api (JNum 7) [sample_item photo "b.jpg" None] []
                 sample_world)
    = Return (ROther (JStr "aa"))
  ∧ result_of (sendMediaGroup (fun _ => Resolved (ROther JUndefined))
                 sample_api (JNum 7) [sample_item photo "b.jpg" None] []
                 sample_world)
    = Throw TypeError.
Proof. vm_compute. split_and!; reflexivity. Qed.
